(** * nodriver.core.connection: request/reply correlation, the handler
      registry and its reconciliation pass, and the listener loop.

    A shallow embedding of [nodriver/core/connection.py].  Coroutines are
    modelled sequentially: every function is a state transformer on a
    [Connection] record, the peer and the external collaborators (command
    codec, event decoder, schema modules, callback bodies) are read from an
    environment [Env], and everything the code does to the outside world
    (log records, frames written to the websocket, callback invocations,
    tasks handed to the scheduler) is appended to the [effects] trace of the
    connection.  The websocket is taken to be open, so that
    [_connect_unlocked] falls through. *)

From stdpp Require Import base list strings gmap pretty.
From Stdlib Require Import ZArith Lia.

Local Open Scope string_scope.
Local Open Scope Z_scope.
Local Open Scope list_scope.

(** ** Python values *)

(** The values that flow through this module unchanged.  Scalars are kept as
    they are; any other object (a decoded JSON object, a dataclass, ...) is
    seen only through [str()] and [bool()], which is all this file does with
    it. *)
Inductive PyVal :=
| PNone
| PBool (b : bool)
| PInt (z : Z)
| PStr (s : string)
| PObject (shown : string) (truthy : bool).

#[global] Instance PyVal_eq_dec : EqDecision PyVal.
Proof. solve_decision. Defined.

(** [str(v)], as an f-string renders a value. *)
Definition py_str (v : PyVal) : string :=
  match v with
  | PNone => "None"
  | PBool true => "True"
  | PBool false => "False"
  | PInt z => pretty z
  | PStr s => s
  | PObject shown _ => shown
  end.

(** [bool(v)], the test of [if v]. *)
Definition py_truthy (v : PyVal) : bool :=
  match v with
  | PNone => false
  | PBool b => b
  | PInt z => negb (Z.eqb z 0)
  | PStr s => negb (bool_decide (s = ""))
  | PObject _ truthy => truthy
  end.

(** A dict with string keys, in insertion order; [dict_get] is [d.get(k)]. *)
Definition PyDict := list (string * PyVal).

Fixpoint dict_get (k : string) (d : PyDict) : option PyVal :=
  match d with
  | [] => None
  | (k', v) :: rest => if decide (k = k') then Some v else dict_get k rest
  end.

(** The empty dict [{}] as a value. *)
Definition empty_dict : PyVal := PObject "{}" false.

(** What [to_json()] of a schema object returns: nested dicts with values at
    the leaves. *)
#[local] Unset Elimination Schemes.
Inductive JsonTree :=
| JLeaf (v : PyVal)
| JNode (items : list (string * JsonTree)).
#[local] Set Elimination Schemes.

(** ** ProtocolException *)

(** The first positional argument of [ProtocolException(...)]: a dict, an
    object with a [to_json] method, or anything else. *)
Inductive ExcArg :=
| ArgDict (d : PyDict)
| ArgSchema (to_json : list (string * JsonTree))
| ArgValue (v : PyVal).

Module ProtocolException.

Record t := mk { message : PyVal; code : PyVal }.

Definition tabs (n : nat) : string :=
  String.concat "" (replicate n (String (Ascii.ascii_of_nat 9) "")).

Definition newline : string := String (Ascii.ascii_of_nat 10) "".

(** The local function [serialize(obj, _d)] of [__init__]. *)
Fixpoint serialize_item (_d : nat) (k : string) (v : JsonTree) : string :=
  match v with
  | JNode items =>
      tabs _d +:+ k +:+ ": " +:+
      (newline +:+
       String.concat ""
         (map (fun kv => serialize_item (S _d) kv.1 kv.2) items))
      +:+ newline
  | JLeaf x => tabs _d +:+ k +:+ ": " +:+ py_str x +:+ newline
  end.

Definition serialize (obj : list (string * JsonTree)) (_d : nat) : string :=
  newline +:+ String.concat "" (map (fun kv => serialize_item _d kv.1 kv.2) obj).

(** [__init__(self, *args)]: [arg0] is [args[0]], [rest] is [args[1:]]. *)
Definition __init__ (arg0 : ExcArg) (rest : list PyVal) : t :=
  match arg0 with
  | ArgDict d =>
      {| message := default PNone (dict_get "message" d);
         code := default PNone (dict_get "code" d) |}
  | ArgSchema j =>
      {| message := PStr (serialize j 0); code := PNone |}
  | ArgValue v =>
      {| message := PStr (String.concat "| " (map py_str (v :: rest)));
         code := PNone |}
  end.

(** [__str__]: the code is shown under [if self.code]. *)
Definition __str__ (self : t) : string :=
  if py_truthy (code self)
  then py_str (message self) +:+ " [code: " +:+ py_str (code self) +:+ "]"
  else py_str (message self).

End ProtocolException.

(** ** Exceptions *)

(** The exceptions this module raises, catches or lets through.  All but
    [SystemSignal] are instances of [Exception]; [SystemSignal] stands for
    the classes that derive from [BaseException] only ([KeyboardInterrupt],
    [SystemExit], [asyncio.CancelledError]), which [except Exception] does
    not catch. *)
Inductive Exc :=
| ProtocolError (e : ProtocolException.t)
| KeyError (args : string)
| TypeError (text : string)
| AttributeError (text : string)
| OtherException (cls text : string)
| SystemSignal (cls : string).

(** [isinstance(e, Exception)]. *)
Definition is_Exception (e : Exc) : bool :=
  match e with SystemSignal _ => false | _ => true end.

(** [isinstance(e, TypeError)]. *)
Definition is_TypeError (e : Exc) : bool :=
  match e with TypeError _ => true | _ => false end.

(** ** The command codec: a generator resumed once *)

(** A generator object that is suspended at a [yield], or has finished.
    Resuming it with the value sent in either yields again, returns (which
    [send] reports as [StopIteration(value)]) or raises. *)
Inductive Generator :=
| GenSuspended (resume : PyVal -> GenStep)
| GenFinished
with GenStep :=
| Yield (y : PyVal) (rest : Generator)
| Return (v : PyVal)
| Raise (e : Exc).

(** What a call of [gen.send(v)] does, as the caller sees it. *)
Inductive SendResult :=
| Yielded (y : PyVal)
| StopIteration (value : PyVal)
| Raised (e : Exc).

Definition gen_send (g : Generator) (v : PyVal) : Generator * SendResult :=
  match g with
  | GenSuspended resume =>
      match resume v with
      | Yield y rest => (rest, Yielded y)
      | Return r => (GenFinished, StopIteration r)
      | Raise e => (GenFinished, Raised e)
      end
  | GenFinished => (GenFinished, StopIteration PNone)
  end.

(** A command generator as a [cdp.<domain>.<method>()] call returns it: its
    first [next] yields the command dict, and it is then suspended until the
    raw result is sent in. *)
Record CdpObj := {
  cdp_method : string;
  cdp_params : option PyVal;
  cdp_resume : PyVal -> GenStep
}.

(** ** Frames *)

(** A decoded inbound frame: the JSON object, with the keys this module
    looks at. *)
Record Message := {
  msg_id : option Z;
  msg_error : option ExcArg;
  msg_result : option PyVal;
  msg_method : option string;
  msg_params : option PyVal
}.

(** ** Transaction *)

(** The states of the [asyncio.Future] a Transaction extends. *)
Inductive FutureState :=
| Pending
| Resolved (result : PyVal)
| Rejected (exception : Exc)
| Cancelled.

Module Transaction.

Record t := mk {
  cdp_obj : Generator;
  method : string;
  params : PyVal;
  id : option Z;
  future : FutureState
}.

(** [__init__]: takes the command dict off the generator. *)
Definition __init__ (g : CdpObj) : t :=
  {| cdp_obj := GenSuspended (cdp_resume g);
     method := cdp_method g;
     params := default empty_dict (cdp_params g);
     id := None;
     future := Pending |}.

(** [Future.done()]. *)
Definition done (self : t) : bool :=
  match future self with Pending => false | _ => true end.

Definition set_future (self : t) (s : FutureState) : t :=
  {| cdp_obj := cdp_obj self; method := method self; params := params self;
     id := id self; future := s |}.

Definition set_cdp_obj (self : t) (g : Generator) : t :=
  {| cdp_obj := g; method := method self; params := params self;
     id := id self; future := future self |}.

Definition set_id (self : t) (i : Z) : t :=
  {| cdp_obj := cdp_obj self; method := method self; params := params self;
     id := Some i; future := future self |}.

(** The text of the [KeyError] that [__call__] raises in place of the
    codec's. *)
Definition key_error_text (args : string) (raw : PyVal) : string :=
  "key '" +:+ args +:+ "' not found in message: " +:+ py_str raw.

(** [__call__(self, **response)]: the transaction afterwards, and the
    exception that leaves the call, if one does. *)
Definition __call__ (self : t) (response : Message) : t * option Exc :=
  if done self then (self, None)
  else
    match msg_error response with
    | Some err =>
        (set_future self (Rejected (ProtocolError (ProtocolException.__init__ err []))),
         None)
    | None =>
        match msg_result response with
        | None => (self, Some (KeyError "('result',)"))
        | Some raw =>
            let '(g, r) := gen_send (cdp_obj self) raw in
            let self' := set_cdp_obj self g in
            match r with
            | Raised (KeyError args) =>
                (self', Some (KeyError (key_error_text args raw)))
            | Raised e => (self', Some e)
            | StopIteration value => (set_future self' (Resolved value), None)
            | Yielded _ => (self', None)
            end
        end
    end.

End Transaction.


(** The text a transaction puts on the wire: [json.dumps] of its method,
    params and id. *)
Record WireMessage := {
  wire_method : string;
  wire_params : PyVal;
  wire_id : option Z
}.

Definition Transaction_message (tx : Transaction.t) : WireMessage :=
  {| wire_method := Transaction.method tx;
     wire_params := Transaction.params tx;
     wire_id := Transaction.id tx |}.

(** ** Python strings and lists *)

Definition ascii_isupper (a : Ascii.ascii) : bool :=
  let n := Ascii.nat_of_ascii a in Nat.leb 65 n && Nat.leb n 90.

Definition ascii_islower (a : Ascii.ascii) : bool :=
  let n := Ascii.nat_of_ascii a in Nat.leb 97 n && Nat.leb n 122.

(** [s.isupper()]: at least one cased character, and no lower-case one.
    Names are ASCII identifiers here, as the names of the cdp modules are; the
    cased characters of such a name are its letters A-Z and a-z.  Names with
    cased characters outside ASCII are outside this model. *)
Definition str_isupper (s : string) : bool :=
  existsb ascii_isupper (String.list_ascii_of_string s)
  && forallb (fun a => negb (ascii_islower a)) (String.list_ascii_of_string s).

(** [name[0].isupper()], for an ASCII name. *)
Definition first_isupper (s : string) : bool :=
  match s with
  | EmptyString => false
  | String a _ => ascii_isupper a
  end.

(** [l.remove(x)]: drops the first occurrence of [x]; [None] is the
    [ValueError] of a list that does not hold [x]. *)
Fixpoint list_remove {A} `{EqDecision A} (x : A) (l : list A) : option (list A) :=
  match l with
  | [] => None
  | y :: rest =>
      if decide (x = y) then Some rest
      else option_map (cons y) (list_remove x rest)
  end.

(** ** Event types, namespaces, callbacks *)

(** A cdp module (a namespace of the protocol), known by its name. *)
Abbreviation Domain := string (only parsing).

(** A callback is a reference to a function or coroutine object; what it
    does when called is in the environment. *)
Abbreviation Callback := string (only parsing).

(** A key of the registry: a class, with its [__module__] and [__name__], or
    some other hashable object. *)
Inductive Key :=
| KType (module_ name : string)
| KOther (shown : string).

#[global] Instance Key_eq_dec : EqDecision Key.
Proof. solve_decision. Defined.

(** [isinstance(k, type)] and [k.__module__]. *)
Definition type_module (k : Key) : option string :=
  match k with
  | KType m _ => Some m
  | KOther _ => None
  end.

Definition type_name (k : Key) : string :=
  match k with
  | KType _ n => n
  | KOther shown => shown
  end.

(** A member of a module as [inspect.getmembers_static] lists it, with what
    [add_handler] asks of it. *)
Record Member := {
  member_obj : Key;
  type_is_type : bool;
  isbuiltin : bool
}.

Record PyModule := {
  module_name : Domain;
  getmembers_static : list (string * Member)
}.

(** One registration target, and the argument of [add_handler]: one target
    or a list of them. *)
Inductive Target :=
| TModule (m : PyModule)
| TObject (k : Key).

Inductive TargetArg :=
| One (t : Target)
| Many (ts : list Target).

(** [if not isinstance(x, list): x = [x]]. *)
Definition as_list (arg : TargetArg) : list Target :=
  match arg with
  | One t => [t]
  | Many ts => ts
  end.

(** The classes of a module that registration picks: the loop over
    [inspect.getmembers_static] with its four [continue]s. *)
Fixpoint event_types (members : list (string * Member)) : list Key :=
  match members with
  | [] => []
  | (name, obj) :: rest =>
      if str_isupper name then event_types rest
      else if negb (first_isupper name) then event_types rest
      else if negb (type_is_type obj) then event_types rest
      else if isbuiltin obj then event_types rest
      else member_obj obj :: event_types rest
  end.

(** ** The registry: a [defaultdict(list)] in insertion order *)

Abbreviation Handlers := (list (Key * list Callback)) (only parsing).

(** [h.get(k)]. *)
Fixpoint handlers_get (k : Key) (h : Handlers) : option (list Callback) :=
  match h with
  | [] => None
  | (k', callbacks) :: rest =>
      if decide (k = k') then Some callbacks else handlers_get k rest
  end.

(** [k in h]. *)
Definition handlers_contains (k : Key) (h : Handlers) : bool :=
  match handlers_get k h with Some _ => true | None => false end.

(** [h[k].append(handler)]: a missing key is first given an empty list, at
    the end of the dict. *)
Fixpoint handlers_append (k : Key) (handler : Callback) (h : Handlers) : Handlers :=
  match h with
  | [] => [(k, [handler])]
  | (k', callbacks) :: rest =>
      if decide (k = k') then (k', callbacks ++ [handler]) :: rest
      else (k', callbacks) :: handlers_append k handler rest
  end.

(** [del h[k]], and [h.pop(k, None)]. *)
Definition handlers_del (k : Key) (h : Handlers) : Handlers :=
  filter (fun entry => entry.1 <> k) h.

(** [h[k].remove(handler)], under the guard [handler in callbacks]. *)
Fixpoint handlers_remove (k : Key) (handler : Callback) (h : Handlers) : Handlers :=
  match h with
  | [] => []
  | (k', callbacks) :: rest =>
      if decide (k = k')
      then (k', default callbacks (list_remove handler callbacks)) :: rest
      else (k', callbacks) :: handlers_remove k handler rest
  end.

(** ** Events, effects, the environment *)

(** A decoded event: [type(event)] and the value. *)
Record Event := {
  event_type : Key;
  event_value : PyVal
}.

Inductive LogLevel := DEBUG | INFO | WARNING.

Inductive LogRecord :=
| UnknownId (i : Z)
| GotAnswer (i : option Z) (message : Message)
| EventParseFailed (message : Message)
| CallbackFailed (callback : Callback) (event_class : string) (e : Exc)
| TaskFailed (e : Exc)
| Registered (domain_mod : option Domain)
| EnableFailed
| ReceiveFailed (e : Exc)
| ClosedConnection.

(** What the connection does to the outside world, in the order it does it. *)
Inductive Effect :=
| Log (level : LogLevel) (record : LogRecord)
| WebsocketSend (w : WireMessage)
| WebsocketClose
| Call (callback : Callback) (with_connection : bool) (event : Event)
| CreateTask (callback : Callback) (with_connection : bool) (event : Event).

(** How a call ends: it returns, it raises, or it never comes back (an
    [await] on a reply that does not arrive). *)
Inductive Outcome (A : Type) :=
| Returned (a : A)
| Failed (e : Exc)
| Suspended.
Arguments Returned {A} a.
Arguments Failed {A} e.
Arguments Suspended {A}.

(** What the peer does with the command that carries a given id. *)
Inductive PeerAnswer :=
| SendFails (e : Exc)
| Replies (error : option ExcArg) (result : option PyVal)
| NoReply.

(** [iscoroutinefunction(callback)], [iscoroutine(callback)], or neither. *)
Inductive CallbackKind := SyncFunction | CoroutineFunction | CoroutineObject.

(** The collaborators of the connection.  [cdp_get_module] is
    [util.cdp_get_module], [enable] is [domain_mod.enable()] ([None] when the
    module has no such attribute), [parse_json_event] is
    [cdp.util.parse_json_event] ([None] when it raises), [peer] answers the
    command sent under an id, and [callback_call] is the exception that
    calling a callback with the event (and the connection, when the flag is
    set) raises, [None] when the call returns: for a coroutine function,
    returning means that the coroutine was created. *)
Record Env := {
  cdp_get_module : string -> Domain;
  enable : Domain -> option CdpObj;
  parse_json_event : Message -> option Event;
  peer : Z -> PeerAnswer;
  callback_kind : Callback -> CallbackKind;
  callback_call : Callback -> bool -> Event -> option Exc
}.

(** [cdp.target] and [cdp.storage]. *)
Definition cdp_target : Domain := "nodriver.cdp.target".
Definition cdp_storage : Domain := "nodriver.cdp.storage".

(** [domain_mod in (cdp.target, cdp.storage)]. *)
Definition always_on (domain_mod : option Domain) : bool :=
  bool_decide (domain_mod = Some cdp_target \/ domain_mod = Some cdp_storage).

(** ** Connection *)

Module Connection.

(** The fields of a connection that this file reads or writes: the pending
    table, the registry, the subscribed namespaces, the next value of
    [itertools.count(0)], and the trace of effects. *)
Record t := mk {
  mapper : gmap Z Transaction.t;
  handlers : Handlers;
  enabled_domains : list (option Domain);
  count : Z;
  effects : list Effect
}.

Definition __init__ : t :=
  {| mapper := ∅; handlers := []; enabled_domains := []; count := 0;
     effects := [] |}.

Definition set_mapper (self : t) (m : gmap Z Transaction.t) : t :=
  {| mapper := m; handlers := handlers self;
     enabled_domains := enabled_domains self; count := count self;
     effects := effects self |}.

Definition set_handlers (self : t) (h : Handlers) : t :=
  {| mapper := mapper self; handlers := h;
     enabled_domains := enabled_domains self; count := count self;
     effects := effects self |}.

Definition set_enabled_domains (self : t) (l : list (option Domain)) : t :=
  {| mapper := mapper self; handlers := handlers self;
     enabled_domains := l; count := count self;
     effects := effects self |}.

Definition set_count (self : t) (n : Z) : t :=
  {| mapper := mapper self; handlers := handlers self;
     enabled_domains := enabled_domains self; count := n;
     effects := effects self |}.

(** One more effect on the outside world. *)
Definition emit (self : t) (e : Effect) : t :=
  {| mapper := mapper self; handlers := handlers self;
     enabled_domains := enabled_domains self; count := count self;
     effects := effects self ++ [e] |}.

(** *** add_handler *)

(** The loop [for evt_dom in event_type_or_domain] of [add_handler]: the
    branch of a module ends in [return]. *)
Fixpoint add_handler_loop (targets : list Target) (handler : Callback)
    (h : Handlers) : Handlers :=
  match targets with
  | [] => h
  | TModule m :: _ =>
      foldl (fun h obj => handlers_append obj handler h) h
            (event_types (getmembers_static m))
  | TObject evt_dom :: rest =>
      add_handler_loop rest handler (handlers_append evt_dom handler h)
  end.

Definition add_handler (self : t) (event_type_or_domain : TargetArg)
    (handler : Callback) : t :=
  set_handlers self
    (add_handler_loop (as_list event_type_or_domain) handler (handlers self)).

(** *** remove_handler *)

(** [for event, callbacks in list(self.handlers.items())]: [callbacks] is the
    list object that the dict holds under [event]. *)
Definition remove_everywhere (handler : Callback) (h : Handlers) : Handlers :=
  foldl (fun h event =>
           if bool_decide (handler ∈ default [] (handlers_get event h))
           then handlers_remove event handler h
           else h)
        h (map fst h).

(** The loop [for evt_dom in event_type_or_domain] of [remove_handler]; it
    ends in [return] after a module, as in [add_handler]. *)
Fixpoint remove_handler_loop (targets : list Target) (h : Handlers) : Handlers :=
  match targets with
  | [] => h
  | TModule m :: _ =>
      foldl (fun h obj => if handlers_contains obj h then handlers_del obj h else h)
            h (event_types (getmembers_static m))
  | TObject evt_dom :: rest =>
      remove_handler_loop rest
        (if handlers_contains evt_dom h then handlers_del evt_dom h else h)
  end.

(** [handler] is [None] for the default [handler=None]. *)
Definition remove_handler (self : t) (event_type_or_domain : TargetArg)
    (handler : option Callback) : t :=
  let h1 :=
    match handler with
    | Some f => remove_everywhere f (handlers self)
    | None => handlers self
    end in
  set_handlers self (remove_handler_loop (as_list event_type_or_domain) h1).

(** *** The reply branch of the listener *)

(** How one turn of the [while True] loop of [_listener] ends. *)
Inductive LoopControl :=
| Continue
| Break
| Escapes (e : Exc).

(** [if "id" in message]: pop the transaction and call it.  The third
    component is the transaction as the caller that awaits it sees it. *)
Definition on_reply (self : t) (message : Message) (i : Z)
    : t * LoopControl * option Transaction.t :=
  match mapper self !! i with
  | None => (emit self (Log WARNING (UnknownId i)), Continue, None)
  | Some tx =>
      let self1 := set_mapper self (delete i (mapper self)) in
      let '(tx', raised) := Transaction.__call__ tx message in
      match raised with
      | Some e => (self1, Escapes e, Some tx')
      | None =>
          (emit self1 (Log DEBUG (GotAnswer (Transaction.id tx') message)),
           Continue, Some tx')
      end
  end.

(** *** send *)

(** The block under [self._lock] of [send]: the next id is drawn, given to
    the transaction, and the transaction is put into the pending table. *)
Definition assign_id (self : t) (tx : Transaction.t) : t * Transaction.t :=
  let the_id := count self in
  let tx := Transaction.set_id tx the_id in
  (set_mapper (set_count self (the_id + 1)) (<[the_id := tx]> (mapper self)), tx).

(** What [await tx] gives once the listener has handled the reply. *)
Definition await_tx (tx : Transaction.t) : Outcome PyVal :=
  match Transaction.future tx with
  | Resolved value => Returned value
  | Rejected e => Failed e
  | Cancelled => Failed (SystemSignal "CancelledError")
  | Pending => Suspended
  end.

(** [send] from [tx = Transaction(cdp_obj)] on, which is all that
    [send(cdp_obj, _is_update=True)] does on an open websocket.  The reply
    of the peer is handled as the listener handles it; when the listener
    dies over it, or the transaction stays pending, the caller is left
    suspended. *)
Definition send_tx (env : Env) (self : t) (cdp_obj : CdpObj) : t * Outcome PyVal :=
  let tx := Transaction.__init__ cdp_obj in
  let '(self1, tx) := assign_id self tx in
  let self2 := emit self1 (WebsocketSend (Transaction_message tx)) in
  match peer env (count self) with
  | SendFails e => (self2, Failed e)
  | NoReply => (self2, Suspended)
  | Replies error result =>
      let message :=
        {| msg_id := Some (count self); msg_error := error; msg_result := result;
           msg_method := None; msg_params := None |} in
      match on_reply self2 message (count self) with
      | (self3, Continue, Some tx') => (self3, await_tx tx')
      | (self3, _, _) => (self3, Suspended)
      end
  end.

(** [await self.send(domain_mod.enable(), _is_update=True)]: [None] has no
    [enable], and neither has a module without that function. *)
Definition send_enable (env : Env) (self : t) (domain_mod : option Domain)
    : t * Outcome PyVal :=
  match domain_mod with
  | None => (self, Failed (AttributeError "'NoneType' object has no attribute 'enable'"))
  | Some d =>
      match enable env d with
      | None => (self, Failed (AttributeError "module has no attribute 'enable'"))
      | Some cdp_obj => send_tx env self cdp_obj
      end
  end.

(** *** _register_handlers *)

(** The first block under the lock: every key of the snapshot whose list is
    empty is popped. *)
Definition prune (snapshot_keys : list Key) (h : Handlers) : Handlers :=
  foldl (fun h event_type =>
           if Nat.eqb (length (default [] (handlers_get event_type h))) 0
           then handlers_del event_type h
           else h)
        h snapshot_keys.

(** [l.remove(x)] inside [try ... except ValueError]. *)
Definition remove_or_pass {A} `{EqDecision A} (x : A) (l : list A) : list A :=
  default l (list_remove x l).

(** The loop [for event_type in handlers_snapshot].  [enabled_domains] is the
    local copy that the pass made at its start. *)
Fixpoint register_loop (env : Env) (snapshot_keys : list Key)
    (enabled_domains : list (option Domain)) (self : t)
    : t * list (option Domain) * Outcome unit :=
  match snapshot_keys with
  | [] => (self, enabled_domains, Returned tt)
  | event_type :: rest =>
      if negb (handlers_contains event_type (handlers self))
      then register_loop env rest enabled_domains self
      else
        let domain_mod := option_map (cdp_get_module env) (type_module event_type) in
        if bool_decide (domain_mod ∈ Connection.enabled_domains self)
        then
          register_loop env rest
            (if bool_decide (domain_mod ∈ enabled_domains)
             then remove_or_pass domain_mod enabled_domains
             else enabled_domains)
            self
        else if always_on domain_mod
        then register_loop env rest enabled_domains self
        else if bool_decide (domain_mod ∈ Connection.enabled_domains self)
        then register_loop env rest enabled_domains self
        else
          let self1 := emit self (Log DEBUG (Registered domain_mod)) in
          let self2 :=
            set_enabled_domains self1 (Connection.enabled_domains self1 ++ [domain_mod]) in
          match send_enable env self2 domain_mod with
          | (self3, Returned _) => register_loop env rest enabled_domains self3
          | (self3, Failed _) =>
              let self4 := emit self3 (Log DEBUG EnableFailed) in
              register_loop env rest enabled_domains
                (set_enabled_domains self4
                   (remove_or_pass domain_mod (Connection.enabled_domains self4)))
          | (self3, Suspended) => (self3, enabled_domains, Suspended)
          end
  end.

Definition _register_handlers (env : Env) (self : t) : t * Outcome unit :=
  let enabled_domains := Connection.enabled_domains self in
  let handlers_snapshot := handlers self in
  let self1 := set_handlers self (prune (map fst handlers_snapshot) (handlers self)) in
  match register_loop env (map fst handlers_snapshot) enabled_domains self1 with
  | (self2, enabled_domains, Returned _) =>
      (set_enabled_domains self2
         (foldl (fun l ed => remove_or_pass ed l) (Connection.enabled_domains self2)
                enabled_domains),
       Returned tt)
  | (self2, _, other) => (self2, other)
  end.

(** [send(cdp_obj, _is_update)]. *)
Definition send (env : Env) (self : t) (cdp_obj : CdpObj) (_is_update : bool)
    : t * Outcome PyVal :=
  if _is_update then send_tx env self cdp_obj
  else
    match _register_handlers env self with
    | (self1, Returned _) => send_tx env self1 cdp_obj
    | (self1, Failed e) => (self1, Failed e)
    | (self1, Suspended) => (self1, Suspended)
    end.

Definition _send_oneshot (env : Env) (self : t) (cdp_obj : CdpObj) : t * Outcome PyVal :=
  send env self cdp_obj true.

(** *** _listener *)

(** What [await self.websocket.recv()] gives: a frame (already through
    [json.loads]), or one of the exceptions the loop tells apart. *)
Inductive Recv :=
| Frame (message : Message)
| RecvProtocolException
| RecvConnectionClosedOK
| RecvConnectionClosed
| RecvException (e : Exc).

(** Where the listener is once its input is used up: still in the loop,
    waiting in [recv]; out of the loop after a [break]; or gone with an
    exception that left the coroutine. *)
Inductive ListenerStatus :=
| Running
| Terminated
| Died (e : Exc).

(** [disconnect], as the listener calls it: the subscribed namespaces are
    cleared and the websocket is closed. *)
Definition disconnect (self : t) : t :=
  emit (emit (set_enabled_domains self []) WebsocketClose) (Log DEBUG ClosedConnection).

(** [_handle_handler_task_result]: the done-callback of a handler task, given
    the exception the task ended with, if any. *)
Definition _handle_handler_task_result (self : t) (result : option Exc) : t * option Exc :=
  match result with
  | Some e =>
      if is_Exception e then (emit self (Log WARNING (TaskFailed e)), None)
      else (self, Some e)
  | None => (self, None)
  end.

(** The body of the [try] around one callback: the two-argument call, and
    the one-argument call after a [TypeError].  A [Call] effect is the
    evaluation of the call expression; a coroutine object is not callable,
    so both of its calls raise [TypeError].  The second component is the
    exception that reaches [except Exception]. *)
Definition call_callback (env : Env) (self : t) (callback : Callback)
    (event : Event) : t * option Exc :=
  match callback_kind env callback with
  | CoroutineObject =>
      (emit (emit self (Call callback true event)) (Call callback false event),
       Some (TypeError "'coroutine' object is not callable"))
  | CoroutineFunction =>
      let self1 := emit self (Call callback true event) in
      match callback_call env callback true event with
      | None => (emit self1 (CreateTask callback true event), None)
      | Some e =>
          if is_TypeError e then
            let self2 := emit self1 (Call callback false event) in
            match callback_call env callback false event with
            | None => (emit self2 (CreateTask callback false event), None)
            | Some e' => (self2, Some e')
            end
          else (self1, Some e)
      end
  | SyncFunction =>
      let self1 := emit self (Call callback true event) in
      match callback_call env callback true event with
      | None => (self1, None)
      | Some e =>
          if is_TypeError e then
            let self2 := emit self1 (Call callback false event) in
            match callback_call env callback false event with
            | None => (self2, None)
            | Some e' => (self2, Some e')
            end
          else (self1, Some e)
      end
  end.

(** [for callback in callbacks]. *)
Fixpoint dispatch (env : Env) (self : t) (event : Event)
    (callbacks : list Callback) : t * LoopControl :=
  match callbacks with
  | [] => (self, Continue)
  | callback :: rest =>
      match call_callback env self callback event with
      | (self1, None) => dispatch env self1 event rest
      | (self1, Some e) =>
          if is_Exception e
          then dispatch env
                 (emit self1
                    (Log WARNING (CallbackFailed callback (type_name (event_type event)) e)))
                 event rest
          else (self1, Escapes e)
      end
  end.

(** The [else] branch of the [try] around [recv]: one decoded frame. *)
Definition on_message (env : Env) (self : t) (message : Message) : t * LoopControl :=
  match msg_id message with
  | Some i =>
      let '(self1, control, _) := on_reply self message i in (self1, control)
  | None =>
      match parse_json_event env message with
      | None => (emit self (Log INFO (EventParseFailed message)), Continue)
      | Some event =>
          let callbacks :=
            if handlers_contains (event_type event) (handlers self)
            then default [] (handlers_get (event_type event) (handlers self))
            else [] in
          match callbacks with
          | [] => (self, Continue)
          | _ => dispatch env self event callbacks
          end
      end
  end.

(** The loop over what [recv] delivers, one element of [inputs] per turn. *)
Fixpoint _listener (env : Env) (inputs : list Recv) (self : t) : t * ListenerStatus :=
  match inputs with
  | [] => (self, Running)
  | RecvProtocolException :: _ => (self, Terminated)
  | RecvConnectionClosedOK :: _ => (disconnect self, Terminated)
  | RecvConnectionClosed :: _ => (disconnect self, Terminated)
  | RecvException e :: _ =>
      if is_Exception e
      then (emit self (Log INFO (ReceiveFailed e)), Died e)
      else (self, Died e)
  | Frame message :: rest =>
      match on_message env self message with
      | (self1, Continue) => _listener env rest self1
      | (self1, Break) => (self1, Terminated)
      | (self1, Escapes e) => (self1, Died e)
      end
  end.

(** *** Runs of a connection *)

(** The caller that awaits the transaction stored under an id is cancelled
    (a timeout around [send], say): asyncio cancels the future that the
    caller awaits at [return await tx], which does nothing to a future that
    is done.  [send] has no cleanup after that line, so the transaction
    stays in the pending table. *)
Definition cancel_waiter (self : t) (i : Z) : t :=
  set_mapper self
    (alter (fun tx => if Transaction.done tx then tx
                      else Transaction.set_future tx Cancelled)
           i (mapper self)).

(** The calls a connection receives during its life, in the order in which
    they run. *)
Inductive Op :=
| OpSend (cdp_obj : CdpObj) (_is_update : bool)
| OpSendOneshot (cdp_obj : CdpObj)
| OpAddHandler (event_type_or_domain : TargetArg) (handler : Callback)
| OpRemoveHandler (event_type_or_domain : TargetArg) (handler : option Callback)
| OpRegisterHandlers
| OpListen (inputs : list Recv)
| OpCancelWaiter (i : Z).

Definition run_op (env : Env) (self : t) (op : Op) : t :=
  match op with
  | OpSend cdp_obj _is_update => (send env self cdp_obj _is_update).1
  | OpSendOneshot cdp_obj => (_send_oneshot env self cdp_obj).1
  | OpAddHandler target handler => add_handler self target handler
  | OpRemoveHandler target handler => remove_handler self target handler
  | OpRegisterHandlers => (_register_handlers env self).1
  | OpListen inputs => (_listener env inputs self).1
  | OpCancelWaiter i => cancel_waiter self i
  end.

Definition run (env : Env) (ops : list Op) : t :=
  foldl (run_op env) __init__ ops.

(** The ids of the frames written to the websocket, oldest first. *)
Definition sent_ids (self : t) : list Z :=
  omap (fun e => match e with WebsocketSend w => wire_id w | _ => None end)
       (effects self).

End Connection.

(** * Notions used in the statements *)

(** The event types of the targets that the loop of [add_handler] and of
    [remove_handler] reaches: those up to the first module of the list, and
    the classes of that module. *)
Fixpoint reached_keys (targets : list Target) : list Key :=
  match targets with
  | [] => []
  | TModule m :: _ => event_types (getmembers_static m)
  | TObject k :: rest => k :: reached_keys rest
  end.

(** The event types that a list of targets resolves to: each target in the
    list, a module standing for the classes it declares. *)
Fixpoint resolved_keys (targets : list Target) : list Key :=
  match targets with
  | [] => []
  | TModule m :: rest => event_types (getmembers_static m) ++ resolved_keys rest
  | TObject k :: rest => k :: resolved_keys rest
  end.

(** The callback is in the list that the registry holds for an event type. *)
Definition registered (k : Key) (f : Callback) (h : Handlers) : Prop :=
  exists callbacks, handlers_get k h = Some callbacks /\ f ∈ callbacks.

(** The module that [_register_handlers] computes for a key of the registry:
    [None] for a key that is not a class. *)
Definition domain_of (env : Env) (event_type : Key) : option Domain :=
  option_map (cdp_get_module env) (type_module event_type).

(** A namespace has handlers when one of its event types has a non-empty
    callback list in the registry. *)
Definition has_handlers (env : Env) (h : Handlers) (d : Domain) : Prop :=
  exists event_type callbacks,
    handlers_get event_type h = Some callbacks /\ callbacks <> []
    /\ domain_of env event_type = Some d.

(** One of [keys] is in the registry and belongs to the module [x]. *)
Definition serves (env : Env) (h : Handlers) (keys : list Key) (x : option Domain) : Prop :=
  exists k, k ∈ keys /\ handlers_contains k h = true /\ domain_of env k = x.

(** How often a value occurs in a list: [l.count(x)]. *)
Fixpoint occurrences {A} `{EqDecision A} (x : A) (l : list A) : nat :=
  match l with
  | [] => O
  | y :: rest => if decide (x = y) then S (occurrences x rest) else occurrences x rest
  end.

(** The callbacks whose two-argument call was evaluated, in order: every
    callback that the dispatch loop reaches is first called that way. *)
Definition first_calls (l : list Effect) : list Callback :=
  omap (fun e => match e with Call callback true _ => Some callback | _ => None end) l.

(** The exception with which the call of a callback for an event reaches
    [except Exception], if there is one. *)
Definition raised_by (env : Env) (callback : Callback) (event : Event) : option Exc :=
  (Connection.call_callback env Connection.__init__ callback event).2.

(** The ids written to the websocket so far are the values that the counter
    has given out, in the order in which it gave them. *)
Definition ids_in_sequence (self : Connection.t) : Prop :=
  0 <= Connection.count self
  /\ Connection.sent_ids self = seqZ 0 (Connection.count self).

(** The registry is a dict (no event type has two entries), and the pending
    table holds, under each id, a transaction that carries that id, drawn
    from the counter, and that no reply has settled: it is pending, or was
    cancelled by its caller. *)
Definition consistent (self : Connection.t) : Prop :=
  NoDup (map fst (Connection.handlers self))
  /\ 0 <= Connection.count self
  /\ forall (i : Z) (tx : Transaction.t),
       Connection.mapper self !! i = Some tx ->
       Transaction.id tx = Some i
       /\ (Transaction.future tx = Pending \/ Transaction.future tx = Cancelled)
       /\ 0 <= i < Connection.count self.

(** * Example data *)

Definition settled_tx : Transaction.t :=
  {| Transaction.cdp_obj := GenFinished; Transaction.method := "Page.navigate";
     Transaction.params := empty_dict; Transaction.id := Some 1;
     Transaction.future := Resolved (PInt 42) |}.

Definition error_reply : Message :=
  {| msg_id := Some 1;
     msg_error := Some (ArgDict [("message", PStr "boom"); ("code", PInt (-32000))]);
     msg_result := None; msg_method := None; msg_params := None |}.

(** The codec of a command whose result must carry the key [value]. *)
Definition value_codec (raw : PyVal) : GenStep :=
  match raw with
  | PInt z => Return (PInt z)
  | _ => Raise (KeyError "('value',)")
  end.

Definition pending_tx : Transaction.t :=
  Transaction.set_id
    (Transaction.__init__
       {| cdp_method := "Runtime.evaluate"; cdp_params := None;
          cdp_resume := value_codec |}) 1.

Definition result_reply (raw : PyVal) : Message :=
  {| msg_id := Some 1; msg_error := None; msg_result := Some raw;
     msg_method := None; msg_params := None |}.

Definition plain_class (k : Key) : Member :=
  {| member_obj := k; type_is_type := true; isbuiltin := false |}.

Definition other_member (shown : string) : Member :=
  {| member_obj := KOther shown; type_is_type := false; isbuiltin := false |}.

Definition RequestWillBeSent : Key := KType "nodriver.cdp.network" "RequestWillBeSent".
Definition LoadingFinished : Key := KType "nodriver.cdp.network" "LoadingFinished".
Definition FrameNavigated : Key := KType "nodriver.cdp.page" "FrameNavigated".
Definition TargetCreated : Key := KType "nodriver.cdp.target" "TargetCreated".

(** A module as [inspect.getmembers_static] lists [cdp.network]: two event
    classes, an enum, a constant, and two functions. *)
Definition cdp_network : PyModule :=
  {| module_name := "nodriver.cdp.network";
     getmembers_static :=
       [("LoadingFinished", plain_class LoadingFinished);
        ("RequestWillBeSent", plain_class RequestWillBeSent);
        ("ResourceType", other_member "<enum 'ResourceType'>");
        ("T_JSON_DICT", other_member "typing.Dict[str, typing.Any]");
        ("dataclass", other_member "<function dataclass>");
        ("enable", other_member "<function enable>")] |}.

(** A connection whose registry holds one callback twice under one event
    type. *)
Definition twice_registered : Connection.t :=
  Connection.add_handler
    (Connection.add_handler Connection.__init__ (One (TObject RequestWillBeSent)) "on_request")
    (One (TObject RequestWillBeSent)) "on_request".

(** An enable command: no parameters, and nothing to decode in the reply. *)
Definition enable_command (d : Domain) : CdpObj :=
  {| cdp_method := d +:+ ".enable"; cdp_params := None;
     cdp_resume := fun _ => Return PNone |}.

(** An environment in which every module has [enable], the peer answers
    every command with an empty result, events carry their class in
    [method], the callback [on_error] raises and every other callback
    returns. *)
Definition benign_env : Env :=
  {| cdp_get_module := fun module_name => module_name;
     enable := fun d => Some (enable_command d);
     parse_json_event := fun message =>
       match msg_method message with
       | Some "Network.requestWillBeSent" =>
           Some {| event_type := RequestWillBeSent; event_value := PNone |}
       | _ => None
       end;
     peer := fun _ => Replies None (Some empty_dict);
     callback_kind := fun _ => SyncFunction;
     callback_call := fun callback _ _ =>
       if decide (callback = "on_error")
       then Some (OtherException "ValueError" "bad event")
       else None |}.

(** A connection with a handler on a network event and one on an event of
    [cdp.target]. *)
Definition two_domains : Connection.t :=
  Connection.add_handler
    (Connection.add_handler Connection.__init__ (One (TObject RequestWillBeSent)) "on_request")
    (One (TObject TargetCreated)) "on_target".

(** A connection with two callbacks on one event type, the first of which
    raises, and the frame of such an event. *)
Definition two_callbacks : Connection.t :=
  Connection.add_handler
    (Connection.add_handler Connection.__init__ (One (TObject RequestWillBeSent)) "on_error")
    (One (TObject RequestWillBeSent)) "on_request".

Definition request_event_frame : Message :=
  {| msg_id := None; msg_error := None; msg_result := None;
     msg_method := Some "Network.requestWillBeSent"; msg_params := Some empty_dict |}.

(** A reply to a command that was never sent. *)
Definition stale_reply : Message :=
  {| msg_id := Some 999; msg_error := None; msg_result := Some empty_dict;
     msg_method := None; msg_params := None |}.

(** A run: a handler is registered, a command is sent (after a pass that
    enables [cdp.network]), a stale reply arrives, and a second command is
    sent without a pass. *)
Definition example_run : list Connection.Op :=
  [Connection.OpAddHandler (One (TObject RequestWillBeSent)) "on_request";
   Connection.OpSend (enable_command "Page") false;
   Connection.OpListen [Connection.Frame stale_reply];
   Connection.OpSendOneshot (enable_command "Runtime")].

(** The environment of [benign_env] with a peer that gives one answer to
    every command. *)
Definition answering_env (answer : PeerAnswer) : Env :=
  {| cdp_get_module := cdp_get_module benign_env;
     enable := enable benign_env;
     parse_json_event := parse_json_event benign_env;
     peer := fun _ => answer;
     callback_kind := callback_kind benign_env;
     callback_call := callback_call benign_env |}.

Definition evaluate_command : CdpObj :=
  {| cdp_method := "Runtime.evaluate"; cdp_params := None; cdp_resume := value_codec |}.

Definition DomContentEventFired : Key := KType "nodriver.cdp.page" "DomContentEventFired".

(** [cdp.page] with two event classes and a lower-case function. *)
Definition cdp_page : PyModule :=
  {| module_name := "nodriver.cdp.page";
     getmembers_static :=
       [("DomContentEventFired", plain_class DomContentEventFired);
        ("FrameNavigated", plain_class FrameNavigated);
        ("enable", other_member "<function enable>")] |}.

(** [benign_env] with a callback [on_interrupt] that raises
    [KeyboardInterrupt], and a callback [on_event_only] that takes the event
    alone, so that its two-argument call raises [TypeError]. *)
Definition signal_env : Env :=
  {| cdp_get_module := cdp_get_module benign_env;
     enable := enable benign_env;
     parse_json_event := parse_json_event benign_env;
     peer := peer benign_env;
     callback_kind := callback_kind benign_env;
     callback_call := fun callback with_connection _ =>
       if decide (callback = "on_interrupt")
       then Some (SystemSignal "KeyboardInterrupt")
       else if decide (callback = "on_event_only")
       then if with_connection
            then Some (TypeError "takes 1 positional argument but 2 were given")
            else None
       else None |}.

(** A connection with [on_interrupt] registered before [on_request]. *)
Definition interrupted : Connection.t :=
  Connection.add_handler
    (Connection.add_handler Connection.__init__ (One (TObject RequestWillBeSent)) "on_interrupt")
    (One (TObject RequestWillBeSent)) "on_request".

(** A connection with [on_event_only] registered before [on_request]. *)
Definition one_argument : Connection.t :=
  Connection.add_handler
    (Connection.add_handler Connection.__init__ (One (TObject RequestWillBeSent)) "on_event_only")
    (One (TObject RequestWillBeSent)) "on_request".

(** A connection that has a command in flight under id 1. *)
Definition in_flight : Connection.t :=
  Connection.set_count
    (Connection.set_mapper Connection.__init__ {[ 1 := pending_tx ]}) 2.

(** * Properties *)

(** ** ProtocolException: the rendered form *)

(** With a code that [if self.code] accepts, the rendering is the message
    followed by the code in brackets. *)
Lemma protocol_exception_str_code (e : ProtocolException.t) :
  py_truthy (ProtocolException.code e) = true ->
  ProtocolException.__str__ e =
    py_str (ProtocolException.message e) +:+ " [code: "
      +:+ py_str (ProtocolException.code e) +:+ "]".
Proof. intros H. unfold ProtocolException.__str__. by rewrite H. Qed.

(** Without a code in the payload the rendering is the message alone. *)
Lemma protocol_exception_str_no_code (d : PyDict) :
  dict_get "code" d = None ->
  ProtocolException.__str__ (ProtocolException.__init__ (ArgDict d) []) =
    py_str (default PNone (dict_get "message" d)).
Proof. intros H. unfold ProtocolException.__str__. simpl. by rewrite H. Qed.

(** Scenario B: the error payload [{"message": "boom", "code": -32000}]. *)
Example protocol_exception_boom :
  ProtocolException.__str__
    (ProtocolException.__init__
       (ArgDict [("message", PStr "boom"); ("code", PInt (-32000))]) [])
  = "boom [code: -32000]".
Proof. reflexivity. Qed.

(** C5 (code_bug).  The payload [{"message": "boom", "code": 0}] carries a
    code, so the rendering should be ["boom [code: 0]"]; [__str__] tests the
    code with [if self.code], which is false for [0], and renders the
    message alone. *)
Theorem protocol_exception_code_zero_dropped :
  ProtocolException.__str__
    (ProtocolException.__init__
       (ArgDict [("message", PStr "boom"); ("code", PInt 0)]) [])
  = "boom".
Proof. reflexivity. Qed.

(** ** Transaction: completion *)

(** C2.  A transaction that is done is left as it is by [__call__], whatever
    the reply frame, and no exception leaves the call: the settled value or
    error, and the codec, are unchanged. *)
Theorem transaction_call_done_noop (tx : Transaction.t) (response : Message) :
  Transaction.done tx = true ->
  Transaction.__call__ tx response = (tx, None).
Proof. intros Hdone. unfold Transaction.__call__. by rewrite Hdone. Qed.

Lemma transaction_call_done_noop_witness :
  Transaction.__call__ settled_tx error_reply = (settled_tx, None).
Proof. apply transaction_call_done_noop. reflexivity. Defined.

(** C4.  For a pending transaction and a reply with a result and no error,
    the raw result is sent into the codec.  When the codec raises a
    [KeyError], [__call__] raises a [KeyError] that names the key and the
    raw result, and the transaction stays pending; when the codec returns,
    the returned value resolves the transaction and nothing is raised. *)
Theorem transaction_call_result (tx : Transaction.t) (response : Message) (raw : PyVal) :
  Transaction.done tx = false ->
  msg_error response = None ->
  msg_result response = Some raw ->
  match (gen_send (Transaction.cdp_obj tx) raw).2 with
  | Raised (KeyError args) =>
      (Transaction.__call__ tx response).2
        = Some (KeyError (Transaction.key_error_text args raw))
      /\ Transaction.future (Transaction.__call__ tx response).1 = Pending
  | StopIteration value =>
      (Transaction.__call__ tx response).2 = None
      /\ Transaction.future (Transaction.__call__ tx response).1 = Resolved value
  | _ => True
  end.
Proof.
  intros Hdone Herr Hres. unfold Transaction.__call__.
  rewrite Hdone, Herr, Hres.
  destruct (gen_send (Transaction.cdp_obj tx) raw) as [g r]. simpl.
  destruct r as [y|value|e]; [done|done|].
  destruct e; try done. simpl. split; [done|].
  unfold Transaction.done in Hdone.
  by destruct (Transaction.future tx).
Qed.

Lemma transaction_call_result_witness :
  ((Transaction.__call__ pending_tx (result_reply (PInt 42))).2 = None
   /\ Transaction.future (Transaction.__call__ pending_tx (result_reply (PInt 42))).1
      = Resolved (PInt 42))
  /\ ((Transaction.__call__ pending_tx (result_reply PNone)).2
        = Some (KeyError (Transaction.key_error_text "('value',)" PNone))
      /\ Transaction.future (Transaction.__call__ pending_tx (result_reply PNone)).1
         = Pending).
Proof.
  split.
  - exact (transaction_call_result pending_tx (result_reply (PInt 42)) (PInt 42)
             eq_refl eq_refl eq_refl).
  - exact (transaction_call_result pending_tx (result_reply PNone) PNone
             eq_refl eq_refl eq_refl).
Defined.

(** ** The registry as a dict *)

Lemma handlers_get_append (k k' : Key) (f : Callback) (h : Handlers) :
  handlers_get k' (handlers_append k f h) =
    if decide (k = k') then Some (default [] (handlers_get k h) ++ [f])
    else handlers_get k' h.
Proof.
  induction h as [|[k0 l] h IH]; simpl.
  - repeat case_decide; congruence.
  - destruct (decide (k = k0)) as [->|Hne]; simpl.
    + repeat case_decide; congruence.
    + rewrite IH. repeat case_decide; congruence.
Qed.

Lemma handlers_get_del (k k' : Key) (h : Handlers) :
  handlers_get k' (handlers_del k h) =
    if decide (k = k') then None else handlers_get k' h.
Proof.
  unfold handlers_del. induction h as [|[k0 l] h IH]; simpl.
  - by case_decide.
  - rewrite filter_cons. simpl. destruct (decide (k0 <> k)) as [Hne|Heq]; simpl.
    + rewrite IH. repeat case_decide; congruence.
    + apply dec_stable in Heq. subst k0. rewrite IH.
      repeat case_decide; congruence.
Qed.

Lemma handlers_get_remove (k k' : Key) (f : Callback) (h : Handlers) :
  handlers_get k' (handlers_remove k f h) =
    if decide (k = k')
    then Connection.remove_or_pass f <$> handlers_get k h
    else handlers_get k' h.
Proof.
  induction h as [|[k0 l] h IH]; simpl.
  - by case_decide.
  - destruct (decide (k = k0)) as [->|Hne]; simpl.
    + repeat case_decide; simplify_eq/=; done.
    + rewrite IH. repeat case_decide; simplify_eq/=; done.
Qed.

Lemma handlers_get_None (k : Key) (h : Handlers) :
  handlers_get k h = None <-> k ∉ map fst h.
Proof.
  induction h as [|[k0 l] h IH]; simpl.
  - split; [intros _; apply not_elem_of_nil|done].
  - rewrite not_elem_of_cons. case_decide; [|tauto].
    split; [done|]. intros [? _]. congruence.
Qed.

Lemma list_remove_absent {A} `{EqDecision A} (x : A) (l : list A) :
  x ∉ l -> list_remove x l = None.
Proof.
  induction l as [|y l IH]; [done|]. simpl. rewrite not_elem_of_cons.
  intros [Hne Hnin]. case_decide; [done|]. by rewrite IH.
Qed.

(** ** add_handler *)

Lemma handlers_append_registers (k : Key) (f : Callback) (h : Handlers) :
  registered k f (handlers_append k f h).
Proof.
  unfold registered. rewrite handlers_get_append, decide_True by done.
  eexists. split; [done|]. apply elem_of_app. right. by apply list_elem_of_singleton.
Qed.

Lemma handlers_append_keeps (k k' : Key) (f g : Callback) (h : Handlers) :
  registered k f h -> registered k f (handlers_append k' g h).
Proof.
  intros (l & Hl & Hf). unfold registered. rewrite handlers_get_append.
  destruct (decide (k' = k)) as [->|?]; [|eauto].
  rewrite Hl. eexists. split; [done|]. apply elem_of_app. by left.
Qed.

Lemma foldl_append_keeps (keys : list Key) (k : Key) (f g : Callback) (h : Handlers) :
  registered k f h ->
  registered k f (foldl (fun h obj => handlers_append obj g h) h keys).
Proof.
  revert h. induction keys as [|a keys IH]; intros h Hreg; [done|].
  simpl. by apply IH, handlers_append_keeps.
Qed.

Lemma foldl_append_registers (keys : list Key) (k : Key) (f : Callback) (h : Handlers) :
  k ∈ keys ->
  registered k f (foldl (fun h obj => handlers_append obj f h) h keys).
Proof.
  revert h. induction keys as [|a keys IH]; intros h Hin.
  - by apply elem_of_nil in Hin.
  - simpl. apply elem_of_cons in Hin as [->|Hin]; [|by apply IH].
    apply foldl_append_keeps, handlers_append_registers.
Qed.

Lemma add_handler_loop_keeps (targets : list Target) (k : Key) (f g : Callback)
    (h : Handlers) :
  registered k f h -> registered k f (Connection.add_handler_loop targets g h).
Proof.
  revert h. induction targets as [|[m|k0] ts IH]; intros h Hreg; simpl.
  - done.
  - by apply foldl_append_keeps.
  - by apply IH, handlers_append_keeps.
Qed.

(** For every target that the loop reaches, the callback is in the list of
    each event type the target resolves to. *)
Lemma add_handler_reached (self : Connection.t) (arg : TargetArg) (f : Callback) (k : Key) :
  k ∈ reached_keys (as_list arg) ->
  registered k f (Connection.handlers (Connection.add_handler self arg f)).
Proof.
  unfold Connection.add_handler. simpl.
  generalize (Connection.handlers self) as h.
  induction (as_list arg) as [|[m|k0] ts IH]; intros h Hin; simpl in *.
  - by apply elem_of_nil in Hin.
  - by apply foldl_append_registers.
  - apply elem_of_cons in Hin as [->|Hin]; [|by apply IH].
    apply add_handler_loop_keeps, handlers_append_registers.
Qed.

(** C3 (code_bug).  [add_handler([cdp.network, FrameNavigated], handler)]:
    the second target is an event type of the list, so its callback list
    should receive the handler; the loop returns after the module, and the
    registry has no entry for [FrameNavigated], while the classes of the
    module got the handler. *)
Theorem add_handler_stops_after_module :
  let self := Connection.add_handler Connection.__init__
                (Many [TModule cdp_network; TObject FrameNavigated]) "on_event" in
  FrameNavigated ∈ resolved_keys [TModule cdp_network; TObject FrameNavigated]
  /\ handlers_get FrameNavigated (Connection.handlers self) = None
  /\ Connection.handlers self
     = [(LoadingFinished, ["on_event"]); (RequestWillBeSent, ["on_event"])].
Proof.
  split; [|split]; [|reflexivity|reflexivity].
  simpl. set_solver.
Qed.

(** ** remove_handler *)

Lemma remove_everywhere_get (f : Callback) (h : Handlers) (k : Key) :
  NoDup (map fst h) ->
  handlers_get k (Connection.remove_everywhere f h)
    = Connection.remove_or_pass f <$> handlers_get k h.
Proof.
  unfold Connection.remove_everywhere. intros Hnd.
  assert (forall keys h0, NoDup keys ->
    handlers_get k
      (foldl (fun h event =>
                if bool_decide (f ∈ default [] (handlers_get event h))
                then handlers_remove event f h else h) h0 keys)
    = if decide (k ∈ keys) then Connection.remove_or_pass f <$> handlers_get k h0
      else handlers_get k h0) as Hgen.
  { clear. induction keys as [|a keys IH]; intros h0 Hnd.
    - done.
    - apply NoDup_cons in Hnd as [Ha Hnd]. simpl. rewrite IH by done.
      assert (forall k', handlers_get k'
                (if bool_decide (f ∈ default [] (handlers_get a h0))
                 then handlers_remove a f h0 else h0)
              = if decide (a = k') then Connection.remove_or_pass f <$> handlers_get a h0
                else handlers_get k' h0) as Hstep.
      { intros k'. case_bool_decide as Hf.
        - apply handlers_get_remove.
        - destruct (decide (a = k')) as [E|E]; [|done]. subst k'.
          destruct (handlers_get a h0) as [l|]; [|done]. simpl in *.
          unfold Connection.remove_or_pass. by rewrite list_remove_absent. }
      rewrite Hstep. destruct (decide (a = k)) as [->|Hne].
      + rewrite decide_False by done.
        rewrite decide_True by (apply elem_of_cons; auto). done.
      + destruct (decide (k ∈ keys)) as [Hk|Hk].
        * rewrite decide_True by (apply elem_of_cons; auto). done.
        * rewrite decide_False; [done|].
          intros [?|?]%elem_of_cons; congruence. }
  rewrite Hgen by done. case_decide as Hk; [done|].
  apply handlers_get_None in Hk. by rewrite Hk.
Qed.

Lemma decide_elem_of_cons {B} (k a : Key) (keys : list Key) (x y : B) :
  (if decide (k ∈ a :: keys) then x else y)
  = if decide (k ∈ keys) then x else if decide (a = k) then x else y.
Proof.
  destruct (decide (k ∈ keys)) as [Hk|Hk].
  - rewrite decide_True; [done|]. apply elem_of_cons. auto.
  - destruct (decide (a = k)) as [->|Hne].
    + rewrite decide_True; [done|]. apply elem_of_cons. auto.
    + rewrite decide_False; [done|]. intros [?|?]%elem_of_cons; congruence.
Qed.

Lemma remove_handler_loop_get (targets : list Target) (h : Handlers) (k : Key) :
  handlers_get k (Connection.remove_handler_loop targets h)
    = if decide (k ∈ reached_keys targets) then None else handlers_get k h.
Proof.
  assert (forall obj h0 k', handlers_get k'
            (if handlers_contains obj h0 then handlers_del obj h0 else h0)
          = if decide (obj = k') then None else handlers_get k' h0) as Hstep.
  { intros obj h0 k'. unfold handlers_contains.
    destruct (handlers_get obj h0) eqn:E.
    - apply handlers_get_del.
    - case_decide; congruence. }
  revert h. induction targets as [|[m|k0] ts IH]; intros h; simpl.
  - done.
  - generalize (event_types (getmembers_static m)) as keys. intros keys.
    revert h. induction keys as [|a keys IHk]; intros h; simpl.
    + done.
    + rewrite IHk, Hstep. symmetry. apply decide_elem_of_cons.
  - rewrite IH, Hstep. symmetry. apply decide_elem_of_cons.
Qed.

(** C9, the claim as stated fails: with the callback twice in the list of
    [RequestWillBeSent], [remove_handler(FrameNavigated, on_request)] leaves
    one occurrence behind. *)
Lemma remove_handler_leaves_duplicate :
  handlers_get RequestWillBeSent
    (Connection.handlers
       (Connection.remove_handler twice_registered (One (TObject FrameNavigated))
          (Some "on_request")))
  = Some ["on_request"]
  /\ "on_request" ∈ ["on_request"].
Proof. split; [reflexivity|set_solver]. Qed.

(** C9, amended.  [remove_handler] with a callback takes the first
    occurrence of the callback out of the list of every event type that
    holds it, other occurrences staying where they are, and removes the
    entry of every event type of the targets that the loop reaches (all the
    targets of the list up to its first namespace). *)
Theorem remove_handler_first_occurrence (self : Connection.t) (arg : TargetArg)
    (f : Callback) (k : Key) :
  NoDup (map fst (Connection.handlers self)) ->
  handlers_get k (Connection.handlers (Connection.remove_handler self arg (Some f)))
    = if decide (k ∈ reached_keys (as_list arg)) then None
      else Connection.remove_or_pass f <$> handlers_get k (Connection.handlers self).
Proof.
  intros Hnd. unfold Connection.remove_handler. simpl.
  rewrite remove_handler_loop_get. case_decide; [done|].
  by apply remove_everywhere_get.
Qed.

Lemma remove_handler_first_occurrence_witness :
  handlers_get RequestWillBeSent
    (Connection.handlers
       (Connection.remove_handler twice_registered (One (TObject FrameNavigated))
          (Some "on_request")))
  = if decide (RequestWillBeSent ∈ reached_keys (as_list (One (TObject FrameNavigated))))
    then None
    else Connection.remove_or_pass "on_request"
           <$> handlers_get RequestWillBeSent (Connection.handlers twice_registered).
Proof.
  apply remove_handler_first_occurrence.
  vm_compute. apply NoDup_cons. split; [apply not_elem_of_nil|apply NoDup_nil_2].
Defined.

(** ** The listener: replies without a pending transaction *)

(** C6.  A frame whose id is not in the pending table is logged and dropped:
    the turn of the loop ends in [continue] with nothing changed but the log,
    no exception leaves the loop, and the listener goes on with the frames
    that follow. *)
Theorem listener_unknown_id (env : Env) (self : Connection.t) (message : Message)
    (i : Z) (inputs : list Connection.Recv) :
  msg_id message = Some i ->
  Connection.mapper self !! i = None ->
  Connection.on_message env self message
    = (Connection.emit self (Log WARNING (UnknownId i)), Connection.Continue)
  /\ Connection._listener env (Connection.Frame message :: inputs) self
     = Connection._listener env inputs (Connection.emit self (Log WARNING (UnknownId i))).
Proof.
  intros Hid Hmiss.
  assert (Connection.on_message env self message
          = (Connection.emit self (Log WARNING (UnknownId i)), Connection.Continue)) as E.
  { unfold Connection.on_message, Connection.on_reply. by rewrite Hid, Hmiss. }
  split; [done|]. simpl. by rewrite E.
Qed.

Lemma listener_unknown_id_witness :
  Connection.on_message benign_env two_callbacks stale_reply
    = (Connection.emit two_callbacks (Log WARNING (UnknownId 999)), Connection.Continue)
  /\ Connection._listener benign_env
       [Connection.Frame stale_reply; Connection.Frame request_event_frame] two_callbacks
     = Connection._listener benign_env [Connection.Frame request_event_frame]
         (Connection.emit two_callbacks (Log WARNING (UnknownId 999))).
Proof.
  apply (listener_unknown_id benign_env two_callbacks stale_reply 999);
    reflexivity.
Defined.

(** ** What a command does to the registry: nothing *)

Lemma on_reply_registry (self : Connection.t) (message : Message) (i : Z) :
  Connection.handlers (Connection.on_reply self message i).1.1 = Connection.handlers self
  /\ Connection.enabled_domains (Connection.on_reply self message i).1.1
     = Connection.enabled_domains self
  /\ Connection.count (Connection.on_reply self message i).1.1 = Connection.count self.
Proof.
  unfold Connection.on_reply.
  destruct (Connection.mapper self !! i) as [tx|]; [|done].
  destruct (Transaction.__call__ tx message) as [tx' [e|]]; done.
Qed.

Lemma send_tx_registry (env : Env) (self : Connection.t) (cdp_obj : CdpObj) :
  Connection.handlers (Connection.send_tx env self cdp_obj).1 = Connection.handlers self
  /\ Connection.enabled_domains (Connection.send_tx env self cdp_obj).1
     = Connection.enabled_domains self.
Proof.
  unfold Connection.send_tx, Connection.assign_id.
  destruct (peer env (Connection.count self)) as [e|error result|]; [done| |done].
  match goal with |- context [Connection.on_reply ?s ?m ?i] =>
    pose proof (on_reply_registry s m i) as (H1 & H2 & _);
    destruct (Connection.on_reply s m i) as [[s3 c] o] end.
  simpl in *. by destruct c, o.
Qed.

Lemma send_enable_registry (env : Env) (self : Connection.t) (domain_mod : option Domain) :
  Connection.handlers (Connection.send_enable env self domain_mod).1 = Connection.handlers self
  /\ Connection.enabled_domains (Connection.send_enable env self domain_mod).1
     = Connection.enabled_domains self.
Proof.
  unfold Connection.send_enable. destruct domain_mod as [d|]; [|done].
  destruct (enable env d); [apply send_tx_registry|done].
Qed.

Lemma register_loop_handlers (env : Env) (keys : list Key)
    (temp : list (option Domain)) (self : Connection.t) :
  Connection.handlers (Connection.register_loop env keys temp self).1.1
    = Connection.handlers self.
Proof.
  revert temp self. induction keys as [|k keys IH]; intros temp self; [done|].
  simpl. repeat (case_match; try done; try apply IH).
  all: match goal with H : Connection.send_enable ?e ?s ?d = _ |- _ =>
         pose proof (send_enable_registry e s d) as [Hh _]; rewrite H in Hh end.
  all: simpl in *; try done.
  all: rewrite IH; simpl; done.
Qed.

(** ** The pass prunes the empty callback lists *)

Lemma prune_step_get (k k' : Key) (h : Handlers) :
  handlers_get k'
    (if Nat.eqb (length (default [] (handlers_get k h))) 0 then handlers_del k h else h)
  = if decide (k = k' /\ handlers_get k h = Some []) then None else handlers_get k' h.
Proof.
  destruct (handlers_get k h) as [[|f l]|] eqn:E; simpl.
  - rewrite handlers_get_del. destruct (decide (k = k')) as [->|?].
    + by rewrite decide_True.
    + rewrite decide_False; [done|]. by intros [? _].
  - rewrite decide_False; [done|]. by intros [_ ?].
  - rewrite handlers_get_del.
    destruct (decide (k = k')) as [->|?]; rewrite decide_False by (by intros [_ ?]); done.
Qed.

Lemma prune_get (keys : list Key) (h : Handlers) (k : Key) :
  handlers_get k (Connection.prune keys h)
  = if decide (k ∈ keys /\ handlers_get k h = Some []) then None else handlers_get k h.
Proof.
  unfold Connection.prune. revert h. induction keys as [|a keys IH]; intros h.
  - cbn [foldl]. rewrite decide_False; [done|]. intros [H _]. by apply elem_of_nil in H.
  - cbn [foldl]. rewrite IH, prune_step_get.
    destruct (decide (a = k /\ handlers_get a h = Some [])) as [[-> E]|Hn].
    + rewrite decide_False by (by intros [_ ?]).
      rewrite decide_True; [done|]. split; [apply elem_of_cons; auto|done].
    + destruct (decide (k ∈ keys /\ handlers_get k h = Some [])) as [[Hk E]|Hn'].
      * rewrite decide_True; [done|]. split; [apply elem_of_cons; auto|done].
      * rewrite decide_False; [done|]. intros [[->|?]%elem_of_cons E]; tauto.
Qed.

Lemma prune_no_empty (h : Handlers) (k : Key) :
  handlers_get k (Connection.prune (map fst h) h) <> Some [].
Proof.
  rewrite prune_get. case_decide as H; [done|]. intros E. apply H. split; [|done].
  destruct (decide (k ∈ map fst h)) as [|Hn]; [done|].
  apply handlers_get_None in Hn. congruence.
Qed.

Lemma prune_id (keys : list Key) (h : Handlers) :
  (forall k, k ∈ keys -> exists f l, handlers_get k h = Some (f :: l)) ->
  Connection.prune keys h = h.
Proof.
  unfold Connection.prune. induction keys as [|a keys IH]; intros H; [done|].
  simpl. destruct (H a) as (f & l & E); [apply elem_of_cons; auto|].
  rewrite E. simpl. apply IH. intros k Hk. apply H, elem_of_cons. auto.
Qed.

Lemma register_handlers_handlers (env : Env) (self : Connection.t) :
  Connection.handlers (Connection._register_handlers env self).1
  = Connection.prune (map fst (Connection.handlers self)) (Connection.handlers self).
Proof.
  unfold Connection._register_handlers.
  match goal with |- context [Connection.register_loop ?e ?ks ?t ?s] =>
    pose proof (register_loop_handlers e ks t s) as H;
    destruct (Connection.register_loop e ks t s) as [[s2 t2] o] end.
  simpl in H. by destruct o.
Qed.

(** C10.  After a reconciliation pass the registry has no event type with an
    empty callback list: no lookup gives the empty list, so event dispatch
    finds a callback for every event type that the registry holds, and the
    pruning of a pass that follows at once removes nothing. *)
Theorem register_handlers_prunes_empty (env : Env) (self : Connection.t) :
  let self' := (Connection._register_handlers env self).1 in
  (forall k callbacks,
     handlers_get k (Connection.handlers self') = Some callbacks -> callbacks <> [])
  /\ (forall event,
        handlers_contains (event_type event) (Connection.handlers self') = true ->
        default [] (handlers_get (event_type event) (Connection.handlers self')) <> [])
  /\ Connection.prune (map fst (Connection.handlers self')) (Connection.handlers self')
     = Connection.handlers self'.
Proof.
  simpl. rewrite register_handlers_handlers.
  set (h := Connection.handlers self).
  assert (forall k callbacks,
            handlers_get k (Connection.prune (map fst h) h) = Some callbacks ->
            callbacks <> []) as Hne.
  { intros k callbacks E ->. by apply (prune_no_empty h k). }
  split; [done|split].
  - intros event. unfold handlers_contains.
    destruct (handlers_get _ _) as [l|] eqn:E; [|done]. intros _. simpl. by eapply Hne.
  - apply prune_id. intros k Hk.
    destruct (handlers_get k (Connection.prune (map fst h) h)) as [[|f l]|] eqn:E.
    + by apply Hne in E.
    + eauto.
    + apply handlers_get_None in E. done.
Qed.

(** ** Counting occurrences *)

Lemma occurrences_elem_of {A} `{EqDecision A} (x : A) (l : list A) :
  x ∈ l <-> (0 < occurrences x l)%nat.
Proof.
  induction l as [|y l IH]; simpl.
  - split; [by intros ?%elem_of_nil|lia].
  - rewrite elem_of_cons. destruct (decide (x = y)); [split; [lia|auto]|].
    rewrite <- IH. tauto.
Qed.

Lemma occurrences_not_elem_of {A} `{EqDecision A} (x : A) (l : list A) :
  x ∉ l <-> occurrences x l = O.
Proof. rewrite occurrences_elem_of. lia. Qed.

Lemma occurrences_app {A} `{EqDecision A} (x : A) (l1 l2 : list A) :
  occurrences x (l1 ++ l2) = (occurrences x l1 + occurrences x l2)%nat.
Proof.
  induction l1 as [|y l1 IH]; simpl; [done|]. destruct (decide (x = y)); lia.
Qed.

Lemma occurrences_remove {A} `{EqDecision A} (x y : A) (l : list A) :
  occurrences x (Connection.remove_or_pass y l)
  = if decide (x = y) then pred (occurrences x l) else occurrences x l.
Proof.
  unfold Connection.remove_or_pass. induction l as [|z l IH]; simpl.
  - by destruct (decide (x = y)).
  - destruct (decide (y = z)) as [->|Hyz]; simpl.
    + destruct (decide (x = z)); done.
    + destruct (list_remove y l) as [l'|]; simpl in *.
      * destruct (decide (x = z)) as [->|?].
        -- rewrite decide_False in IH by done. rewrite decide_False by done. lia.
        -- rewrite IH. done.
      * destruct (decide (x = z)) as [->|?]; [|done].
        rewrite decide_False by done. done.
Qed.

Lemma occurrences_remove_all {A} `{EqDecision A} (x : A) (temp l : list A) :
  occurrences x (foldl (fun l ed => Connection.remove_or_pass ed l) l temp)
  = (occurrences x l - occurrences x temp)%nat.
Proof.
  revert l. induction temp as [|y temp IH]; intros l; simpl; [lia|].
  rewrite IH, occurrences_remove. destruct (decide (x = y)); lia.
Qed.

Lemma remove_or_pass_appended {A} `{EqDecision A} (x : A) (l : list A) :
  x ∉ l -> Connection.remove_or_pass x (l ++ [x]) = l.
Proof.
  unfold Connection.remove_or_pass. induction l as [|y l IH]; simpl.
  - intros _. by rewrite decide_True.
  - rewrite not_elem_of_cons. intros [Hne Hnin]. rewrite decide_False by done.
    specialize (IH Hnin). destruct (list_remove x (l ++ [x])); simpl in *; congruence.
Qed.

(** ** The loop of the reconciliation pass *)

Lemma serves_nil (env : Env) (h : Handlers) (x : option Domain) :
  ~ serves env h [] x.
Proof. intros (k & Hk & _). by apply elem_of_nil in Hk. Qed.

Lemma serves_cons (env : Env) (h : Handlers) (k : Key) (keys : list Key)
    (x : option Domain) :
  serves env h (k :: keys) x
  <-> (handlers_contains k h = true /\ domain_of env k = x) \/ serves env h keys x.
Proof.
  unfold serves. split.
  - intros (k' & [->|Hin]%elem_of_cons & Hc & Hd); [by left|right; eauto].
  - intros [[Hc Hd]|(k' & Hin & Hc & Hd)].
    + exists k. split; [apply elem_of_cons; auto|done].
    + exists k'. split; [apply elem_of_cons; auto|done].
Qed.

Lemma serves_decidable (env : Env) (h : Handlers) (keys : list Key)
    (x : option Domain) :
  serves env h keys x \/ ~ serves env h keys x.
Proof.
  induction keys as [|k keys IH].
  - right. apply serves_nil.
  - rewrite serves_cons.
    destruct (decide (handlers_contains k h = true /\ domain_of env k = x)); tauto.
Qed.

(** One turn of the loop, for a key that the registry holds. *)
Lemma register_loop_cons (env : Env) (k : Key) (rest : list Key)
    (temp : list (option Domain)) (self : Connection.t) :
  Connection.register_loop env (k :: rest) temp self =
    if negb (handlers_contains k (Connection.handlers self))
    then Connection.register_loop env rest temp self
    else if bool_decide (domain_of env k ∈ Connection.enabled_domains self)
    then Connection.register_loop env rest
           (Connection.remove_or_pass (domain_of env k) temp) self
    else if always_on (domain_of env k)
    then Connection.register_loop env rest temp self
    else
      let self2 :=
        Connection.set_enabled_domains
          (Connection.emit self (Log DEBUG (Registered (domain_of env k))))
          (Connection.enabled_domains self ++ [domain_of env k]) in
      match Connection.send_enable env self2 (domain_of env k) with
      | (self3, Returned _) => Connection.register_loop env rest temp self3
      | (self3, Failed _) =>
          Connection.register_loop env rest temp
            (Connection.set_enabled_domains
               (Connection.emit self3 (Log DEBUG EnableFailed))
               (Connection.remove_or_pass (domain_of env k)
                  (Connection.enabled_domains self3)))
      | (self3, Suspended) => (self3, temp, Suspended)
      end.
Proof.
  cbn [Connection.register_loop]. fold (domain_of env k).
  destruct (negb _); [done|].
  case_bool_decide as Hin; [|done].
  case_bool_decide as Hin'; [done|].
  unfold Connection.remove_or_pass. by rewrite list_remove_absent.
Qed.

Lemma register_loop_spec (env : Env) (keys : list Key) :
  forall (temp : list (option Domain)) (self self' : Connection.t)
         (temp' : list (option Domain)) (u : unit),
  Connection.register_loop env keys temp self = (self', temp', Returned u) ->
  forall x : option Domain,
    (occurrences x temp' <= occurrences x temp)%nat
    /\ (~ serves env (Connection.handlers self) keys x ->
        occurrences x temp' = occurrences x temp
        /\ occurrences x (Connection.enabled_domains self')
           = occurrences x (Connection.enabled_domains self))
    /\ (x ∈ Connection.enabled_domains self ->
        occurrences x (Connection.enabled_domains self')
        = occurrences x (Connection.enabled_domains self))
    /\ (x ∈ Connection.enabled_domains self ->
        serves env (Connection.handlers self) keys x ->
        (occurrences x temp' <= pred (occurrences x temp))%nat)
    /\ (x ∉ Connection.enabled_domains self ->
        (occurrences x (Connection.enabled_domains self') <= 1)%nat
        /\ (x ∈ Connection.enabled_domains self' ->
            serves env (Connection.handlers self) keys x /\ always_on x = false)).
Proof.
  induction keys as [|k rest IH]; intros temp self self' temp' u Hloop x.
  - simpl in Hloop. injection Hloop as <- <- _.
    pose proof (serves_nil env (Connection.handlers self) x).
    repeat split; try done; try lia.
    apply occurrences_not_elem_of in H0. lia.
  - rewrite register_loop_cons in Hloop. setoid_rewrite serves_cons.
    destruct (handlers_contains k (Connection.handlers self)) eqn:Hc; simpl in Hloop.
    2:{ specialize (IH _ _ _ _ _ Hloop x). intuition congruence. }
    set (dm := domain_of env k) in *.
    case_bool_decide as Hin.
    { (* the module is subscribed: it is struck from the local copy *)
      specialize (IH _ _ _ _ _ Hloop x).
      rewrite occurrences_remove in IH.
      destruct (decide (x = dm)) as [->|Hne];
        intuition (subst; try congruence; try lia). }
    destruct (always_on dm) eqn:Hao.
    { (* a module that is on by default is left alone *)
      specialize (IH _ _ _ _ _ Hloop x).
      intuition (subst; try congruence; try lia). }
    cbv zeta in Hloop.
    match type of Hloop with context [Connection.send_enable ?e ?s ?d] =>
      pose proof (send_enable_registry e s d) as [Hh He];
      destruct (Connection.send_enable e s d) as [self3 o] end.
    simpl in Hh, He. destruct o as [v|e|]; [| |done].
    + (* the enable command went through *)
      specialize (IH _ _ _ _ _ Hloop x). rewrite Hh, He in IH.
      rewrite occurrences_app in IH. simpl in IH.
      setoid_rewrite elem_of_app in IH. setoid_rewrite list_elem_of_singleton in IH.
      apply occurrences_not_elem_of in Hin as Hzero.
      destruct (decide (x = dm)) as [->|Hne].
      * assert (occurrences dm (Connection.enabled_domains self')
                = (occurrences dm (Connection.enabled_domains self) + 1)%nat) as E
          by (apply IH; auto).
        intuition (subst; try congruence; try lia).
      * intuition (subst; try congruence; try lia).
    + (* the enable command failed: the marking is rolled back *)
      specialize (IH _ _ _ _ _ Hloop x). simpl in IH. rewrite Hh, He in IH.
      rewrite remove_or_pass_appended in IH by done.
      intuition (subst; try congruence; try lia).
Qed.

(** Effects are only ever added at the end of the trace. *)
Lemma on_reply_effects (self : Connection.t) (message : Message) (i : Z) :
  exists added,
    Connection.effects (Connection.on_reply self message i).1.1
    = Connection.effects self ++ added.
Proof.
  unfold Connection.on_reply.
  destruct (Connection.mapper self !! i) as [tx|]; [|by eexists].
  destruct (Transaction.__call__ tx message) as [tx' [e|]]; simpl; [|by eexists].
  exists []. by rewrite app_nil_r.
Qed.

Lemma send_tx_effects (env : Env) (self : Connection.t) (cdp_obj : CdpObj) :
  exists added,
    Connection.effects (Connection.send_tx env self cdp_obj).1
    = Connection.effects self ++ added.
Proof.
  unfold Connection.send_tx, Connection.assign_id.
  destruct (peer env (Connection.count self)) as [e|error result|];
    [by eexists| |by eexists].
  match goal with |- context [Connection.on_reply ?s ?m ?i] =>
    destruct (on_reply_effects s m i) as [added Hadded];
    destruct (Connection.on_reply s m i) as [[s3 c] o] end.
  simpl in Hadded. exists ([WebsocketSend
    (Transaction_message
       (Transaction.set_id (Transaction.__init__ cdp_obj) (Connection.count self)))]
    ++ added).
  rewrite app_assoc. by destruct c, o.
Qed.

Lemma send_enable_effects (env : Env) (self : Connection.t) (domain_mod : option Domain) :
  exists added,
    Connection.effects (Connection.send_enable env self domain_mod).1
    = Connection.effects self ++ added.
Proof.
  unfold Connection.send_enable.
  destruct domain_mod as [d|]; [|exists []; by rewrite app_nil_r].
  destruct (enable env d); [apply send_tx_effects|exists []; by rewrite app_nil_r].
Qed.

Lemma register_loop_effects (env : Env) (keys : list Key) :
  forall (temp : list (option Domain)) (self : Connection.t),
  exists added,
    Connection.effects (Connection.register_loop env keys temp self).1.1
    = Connection.effects self ++ added.
Proof.
  induction keys as [|k rest IH]; intros temp self.
  - exists []. by rewrite app_nil_r.
  - rewrite register_loop_cons.
    destruct (negb _); [apply IH|].
    destruct (bool_decide _); [apply IH|].
    destruct (always_on _); [apply IH|].
    cbv zeta.
    match goal with |- context [Connection.send_enable ?e ?s ?d] =>
      destruct (send_enable_effects e s d) as [a1 Ha1];
      destruct (Connection.send_enable e s d) as [self3 o] end.
    simpl in Ha1. destruct o as [v|e|].
    + destruct (IH temp self3) as [a2 Ha2]. rewrite Ha2, Ha1, <- !app_assoc. by eexists.
    + match goal with |- context [Connection.register_loop env rest temp ?s] =>
        destruct (IH temp s) as [a2 Ha2] end.
      rewrite Ha2. simpl. rewrite Ha1, <- !app_assoc. by eexists.
    + simpl. rewrite Ha1, <- !app_assoc. by eexists.
Qed.

(** In a loop that ends without an enable failure in its log, every module
    that is served, not always on and not yet subscribed gets subscribed. *)
Lemma register_loop_complete (env : Env) (keys : list Key) :
  forall (temp : list (option Domain)) (self self' : Connection.t)
         (temp' : list (option Domain)) (u : unit) (added : list Effect),
  Connection.register_loop env keys temp self = (self', temp', Returned u) ->
  Connection.effects self' = Connection.effects self ++ added ->
  Log DEBUG EnableFailed ∉ added ->
  forall x : option Domain,
    x ∉ Connection.enabled_domains self ->
    serves env (Connection.handlers self) keys x ->
    always_on x = false ->
    x ∈ Connection.enabled_domains self'.
Proof.
  induction keys as [|k rest IH]; intros temp self self' temp' u added Hloop Heff Hlog x.
  - intros _ Hs. by apply serves_nil in Hs.
  - rewrite register_loop_cons in Hloop. setoid_rewrite serves_cons.
    destruct (handlers_contains k (Connection.handlers self)) eqn:Hc; simpl in Hloop.
    2:{ intros ? [[? _]|?] ?; [done|]. by eapply IH. }
    set (dm := domain_of env k) in *.
    case_bool_decide as Hin.
    { intros ? [[_ ?]|?] ?; [congruence|]. by eapply IH. }
    destruct (always_on dm) eqn:Hao.
    { intros ? [[_ ?]|?] ?; [congruence|]. by eapply IH. }
    cbv zeta in Hloop.
    match type of Hloop with context [Connection.send_enable ?e ?s ?d] =>
      pose proof (send_enable_registry e s d) as [Hh He];
      destruct (send_enable_effects e s d) as [a1 Ha1];
      destruct (Connection.send_enable e s d) as [self3 o] end.
    simpl in Hh, He, Ha1. destruct o as [v|e|]; [| |done].
    + destruct (register_loop_effects env rest temp self3) as [a2 Ha2].
      rewrite Hloop in Ha2. simpl in Ha2.
      assert (added = ([Log DEBUG (Registered dm)] ++ a1) ++ a2) as ->.
      { apply (app_inv_head (Connection.effects self)).
        by rewrite <- Heff, Ha2, Ha1, <- !app_assoc. }
      intros Hx Hs Hx'. destruct (decide (x = dm)) as [->|Hne].
      * pose proof (register_loop_spec _ _ _ _ _ _ _ Hloop dm) as (_ & _ & I3 & _).
        assert (dm ∈ Connection.enabled_domains self3) as Hdm.
        { rewrite He. apply elem_of_app. right. by apply list_elem_of_singleton. }
        apply occurrences_elem_of. rewrite I3 by done. by apply occurrences_elem_of.
      * eapply (IH _ _ _ _ _ a2 Hloop Ha2).
        -- intros ?. apply Hlog, elem_of_app. by right.
        -- rewrite He. intros [?|?%list_elem_of_singleton]%elem_of_app; done.
        -- rewrite Hh. destruct Hs as [[_ ?]|?]; [done|auto].
        -- done.
    + exfalso.
      match type of Hloop with Connection.register_loop env rest temp ?s = _ =>
        destruct (register_loop_effects env rest temp s) as [a2 Ha2] end.
      rewrite Hloop in Ha2. simpl in Ha2.
      apply Hlog.
      assert (added = ([Log DEBUG (Registered dm)] ++ a1) ++ [Log DEBUG EnableFailed] ++ a2)
        as ->.
      { apply (app_inv_head (Connection.effects self)).
        by rewrite <- Heff, Ha2, Ha1, <- !app_assoc. }
      apply elem_of_app. right. apply elem_of_app. left. by apply list_elem_of_singleton.
Qed.

Lemma serves_pruned (env : Env) (h : Handlers) (d : Domain) :
  serves env (Connection.prune (map fst h) h) (map fst h) (Some d)
  <-> has_handlers env (Connection.prune (map fst h) h) d.
Proof.
  unfold serves, has_handlers, handlers_contains, domain_of. split.
  - intros (k & Hk & Hc & Hd).
    destruct (handlers_get k (Connection.prune (map fst h) h)) as [l|] eqn:E; [|done].
    exists k, l. split; [done|]. split; [|done].
    intros ->. by apply (prune_no_empty h k).
  - intros (k & l & E & Hl & Hd). exists k. rewrite E. split; [|done].
    destruct (decide (k ∈ map fst h)) as [|Hn]; [done|].
    apply handlers_get_None in Hn. rewrite prune_get in E.
    rewrite Hn in E. by case_decide.
Qed.

(** Membership in [enabled_domains] after a pass that completes with no
    enable command having failed, for any module value, [None] included. *)
Lemma register_handlers_member (env : Env) (self self' : Connection.t)
    (u : unit) (added : list Effect) :
  Connection._register_handlers env self = (self', Returned u) ->
  Connection.effects self' = Connection.effects self ++ added ->
  Log DEBUG EnableFailed ∉ added ->
  forall x : option Domain,
    x ∈ Connection.enabled_domains self'
    <-> serves env (Connection.handlers self') (map fst (Connection.handlers self)) x
        /\ (always_on x = false \/ x ∈ Connection.enabled_domains self).
Proof.
  intros Hpass Heff Hlog x. pose proof (register_handlers_handlers env self) as Hh.
  rewrite Hpass in Hh. simpl in Hh.
  unfold Connection._register_handlers in Hpass.
  set (h := Connection.handlers self) in *.
  destruct (Connection.register_loop env (map fst h) (Connection.enabled_domains self)
              (Connection.set_handlers self (Connection.prune (map fst h) h)))
    as [[self2 temp'] o] eqn:E.
  destruct o as [[]| |]; [|done|done]. injection Hpass as <- _. simpl in *.
  rewrite Hh.
  pose proof (register_loop_spec _ _ _ _ _ _ _ E x) as (I1 & I2 & I3 & I4 & I5).
  pose proof (register_loop_complete _ _ _ _ _ _ _ added E Heff Hlog x) as Hadd.
  simpl in *.
  rewrite occurrences_elem_of, occurrences_remove_all.
  destruct (decide (x ∈ Connection.enabled_domains self)) as [Hin|Hin].
  - apply occurrences_elem_of in Hin as Hpos. rewrite I3 by done. split.
    + intros Hlt. split; [|by right].
      destruct (serves_decidable env (Connection.prune (map fst h) h) (map fst h) x)
        as [|Hns]; [done|].
      apply I2 in Hns as [Ht _]. lia.
    + intros [Hs _]. specialize (I4 Hin Hs). lia.
  - apply occurrences_not_elem_of in Hin as Hzero.
    assert (occurrences x temp' = O) as -> by lia.
    rewrite Nat.sub_0_r, <- occurrences_elem_of. split.
    + intros Hin'. destruct (I5 Hin) as [_ I5']. destruct (I5' Hin') as [? ?]. auto.
    + intros [Hs [Hao|?]]; [auto|done].
Qed.

(** ** The subscribed namespaces after a pass *)

(** C1, the claim as stated fails, in two ways.  With a handler on an event
    of [cdp.target] and one on a network event, every enable command
    succeeding, the pass ends with [cdp.network] as the only subscribed
    namespace: [cdp.target], always on and with a handler of its own, is not
    in [enabled_domains].  And when the enable command fails, the pass
    completes with the subscription rolled back: [cdp.network] has a handler
    and is not in [enabled_domains]. *)
Lemma register_handlers_always_on_absent :
  (Connection.enabled_domains (Connection._register_handlers benign_env two_domains).1
     = [Some "nodriver.cdp.network"]
   /\ always_on (Some cdp_target) = true
   /\ handlers_get TargetCreated
        (Connection.handlers (Connection._register_handlers benign_env two_domains).1)
      = Some ["on_target"]
   /\ ~ (forall d : Domain,
           Some d ∈ Connection.enabled_domains
                      (Connection._register_handlers benign_env two_domains).1
           <-> always_on (Some d) = true
               \/ has_handlers benign_env
                    (Connection.handlers (Connection._register_handlers benign_env two_domains).1) d))
  /\ ((Connection._register_handlers
         (answering_env (SendFails (OtherException "ConnectionClosed" ""))) two_domains).2
      = Returned tt
      /\ Connection.enabled_domains
           (Connection._register_handlers
              (answering_env (SendFails (OtherException "ConnectionClosed" ""))) two_domains).1
         = []
      /\ handlers_get RequestWillBeSent
           (Connection.handlers
              (Connection._register_handlers
                 (answering_env (SendFails (OtherException "ConnectionClosed" "")))
                 two_domains).1)
         = Some ["on_request"]
      /\ ~ (forall d : Domain,
              Some d ∈ Connection.enabled_domains
                         (Connection._register_handlers
                            (answering_env (SendFails (OtherException "ConnectionClosed" "")))
                            two_domains).1
              <-> always_on (Some d) = true
                  \/ has_handlers (answering_env (SendFails (OtherException "ConnectionClosed" "")))
                       (Connection.handlers
                          (Connection._register_handlers
                             (answering_env (SendFails (OtherException "ConnectionClosed" "")))
                             two_domains).1) d)).
Proof.
  split.
  - assert (Connection.enabled_domains (Connection._register_handlers benign_env two_domains).1
            = [Some "nodriver.cdp.network"]) as E by (vm_compute; reflexivity).
    split; [done|]. split; [reflexivity|]. split; [vm_compute; reflexivity|].
    intros H. destruct (H cdp_target) as [_ H']. rewrite E in H'.
    assert (Some cdp_target ∈ [Some "nodriver.cdp.network"]) as Hin by (apply H'; by left).
    apply list_elem_of_singleton in Hin. discriminate.
  - set (env := answering_env (SendFails (OtherException "ConnectionClosed" ""))).
    assert (Connection.enabled_domains (Connection._register_handlers env two_domains).1 = [])
      as E by (vm_compute; reflexivity).
    assert (handlers_get RequestWillBeSent
              (Connection.handlers (Connection._register_handlers env two_domains).1)
            = Some ["on_request"]) as Hget by (vm_compute; reflexivity).
    split; [vm_compute; reflexivity|]. split; [done|]. split; [done|].
    intros H. destruct (H "nodriver.cdp.network") as [_ H']. rewrite E in H'.
    assert (Some "nodriver.cdp.network" ∈ @nil (option string)) as Hin.
    { apply H'. right. exists RequestWillBeSent, ["on_request"].
      split; [done|]. split; [done|]. reflexivity. }
    by apply elem_of_nil in Hin.
Qed.

(** C1, amended.  Immediately after a reconciliation pass that completes
    without an enable command having failed (its log has no record of a
    failed enable, so no subscription was rolled back), a namespace is in
    [enabled_domains] exactly when it has at least one event type with a
    non-empty handler list and either is not one of the always-on namespaces
    or was in [enabled_domains] before the pass: the pass never adds an
    always-on namespace. *)
Theorem register_handlers_enabled_domains (env : Env) (self self' : Connection.t)
    (u : unit) (added : list Effect) :
  Connection._register_handlers env self = (self', Returned u) ->
  Connection.effects self' = Connection.effects self ++ added ->
  Log DEBUG EnableFailed ∉ added ->
  forall d : Domain,
    Some d ∈ Connection.enabled_domains self'
    <-> has_handlers env (Connection.handlers self') d
        /\ (always_on (Some d) = false
            \/ Some d ∈ Connection.enabled_domains self).
Proof.
  intros Hpass Heff Hlog d.
  rewrite (register_handlers_member env self self' u added Hpass Heff Hlog (Some d)).
  pose proof (register_handlers_handlers env self) as Hh.
  rewrite Hpass in Hh. simpl in Hh. by rewrite Hh, serves_pruned.
Qed.

Lemma register_handlers_enabled_domains_witness :
  Some "nodriver.cdp.network"
    ∈ Connection.enabled_domains (Connection._register_handlers benign_env two_domains).1
  <-> has_handlers benign_env
        (Connection.handlers (Connection._register_handlers benign_env two_domains).1)
        "nodriver.cdp.network"
      /\ (always_on (Some "nodriver.cdp.network") = false
          \/ Some "nodriver.cdp.network" ∈ Connection.enabled_domains two_domains).
Proof.
  refine (register_handlers_enabled_domains benign_env two_domains
            (Connection._register_handlers benign_env two_domains).1 tt
            (Connection.effects (Connection._register_handlers benign_env two_domains).1)
            _ _ _ "nodriver.cdp.network").
  - vm_compute. reflexivity.
  - vm_compute. reflexivity.
  - set (l := Connection.effects (Connection._register_handlers benign_env two_domains).1).
    vm_compute in l. subst l. intros H.
    repeat (apply elem_of_cons in H as [H|H]; [discriminate H|]).
    by apply elem_of_nil in H.
Defined.

(** ** Event dispatch *)

(** What stays as it is when only effects are added. *)
Lemma first_calls_app (l1 l2 : list Effect) :
  first_calls (l1 ++ l2) = first_calls l1 ++ first_calls l2.
Proof. apply omap_app. Qed.

Lemma call_callback_spec (env : Env) (self : Connection.t) (callback : Callback)
    (event : Event) :
  exists added,
    Connection.effects (Connection.call_callback env self callback event).1
      = Connection.effects self ++ added
    /\ first_calls added = [callback]
    /\ Connection.mapper (Connection.call_callback env self callback event).1
       = Connection.mapper self
    /\ Connection.handlers (Connection.call_callback env self callback event).1
       = Connection.handlers self
    /\ Connection.enabled_domains (Connection.call_callback env self callback event).1
       = Connection.enabled_domains self
    /\ Connection.count (Connection.call_callback env self callback event).1
       = Connection.count self
    /\ (Connection.call_callback env self callback event).2 = raised_by env callback event.
Proof.
  unfold raised_by, Connection.call_callback.
  destruct (callback_kind env callback);
    destruct (callback_call env callback true event) as [e|];
    try destruct (is_TypeError e);
    try destruct (callback_call env callback false event) as [e'|];
    simpl; rewrite <- ?app_assoc; eexists; (split; [reflexivity|done]).
Qed.

Lemma raised_by_Exception (env : Env) (callback : Callback) (event : Event) (e : Exc) :
  (forall b e', callback_call env callback b event = Some e' -> is_Exception e' = true) ->
  raised_by env callback event = Some e -> is_Exception e = true.
Proof.
  intros H. unfold raised_by, Connection.call_callback.
  destruct (callback_kind env callback);
    destruct (callback_call env callback true event) as [e1|] eqn:E1;
    try destruct (is_TypeError e1);
    try destruct (callback_call env callback false event) as [e2|] eqn:E2;
    simpl; intros [= <-]; eauto.
Qed.

Lemma dispatch_spec (env : Env) (event : Event) (callbacks : list Callback) :
  (forall callback b e, callback ∈ callbacks ->
     callback_call env callback b event = Some e -> is_Exception e = true) ->
  forall self : Connection.t,
  exists self' added,
    Connection.dispatch env self event callbacks = (self', Connection.Continue)
    /\ Connection.effects self' = Connection.effects self ++ added
    /\ first_calls added = callbacks
    /\ (forall callback e, callback ∈ callbacks ->
          raised_by env callback event = Some e ->
          Log WARNING (CallbackFailed callback (type_name (event_type event)) e) ∈ added)
    /\ Connection.mapper self' = Connection.mapper self
    /\ Connection.handlers self' = Connection.handlers self
    /\ Connection.enabled_domains self' = Connection.enabled_domains self
    /\ Connection.count self' = Connection.count self.
Proof.
  induction callbacks as [|callback rest IH]; intros Hexc self.
  - exists self, []. simpl. rewrite app_nil_r. repeat split; try done.
    intros ? ? H. by apply elem_of_nil in H.
  - cbn [Connection.dispatch].
    destruct (call_callback_spec env self callback event)
      as (added1 & Heff & Hcalls & Hm & Hh & Hd & Hc & Hr).
    destruct (Connection.call_callback env self callback event) as [self1 r].
    simpl in *. subst r.
    assert (forall cb b e, cb ∈ rest ->
              callback_call env cb b event = Some e -> is_Exception e = true) as Hrest.
    { intros cb b e Hin. apply Hexc, elem_of_cons. auto. }
    destruct (raised_by env callback event) as [e|] eqn:Hraise.
    + rewrite (raised_by_Exception env callback event e); [|intros b e'; apply Hexc, elem_of_cons; auto|done].
      destruct (IH Hrest (Connection.emit self1
                  (Log WARNING (CallbackFailed callback (type_name (event_type event)) e))))
        as (self' & added & E & Heff' & Hcalls' & Hlog & Hm' & Hh' & Hd' & Hc').
      exists self', (added1 ++ Log WARNING (CallbackFailed callback (type_name (event_type event)) e) :: added).
      simpl in *. split; [done|].
      split; [by rewrite Heff', Heff, <- !app_assoc|].
      split.
      { rewrite first_calls_app, Hcalls.
        change (first_calls (_ :: added)) with (first_calls added). by rewrite Hcalls'. }
      split; [|by rewrite Hm', Hh', Hd', Hc'].
      intros cb e0 [->|Hin]%elem_of_cons Hr.
      * rewrite Hraise in Hr. injection Hr as <-.
        apply elem_of_app. right. apply elem_of_cons. by left.
      * apply elem_of_app. right. apply elem_of_cons. right. by apply Hlog.
    + destruct (IH Hrest self1)
        as (self' & added & E & Heff' & Hcalls' & Hlog & Hm' & Hh' & Hd' & Hc').
      exists self', (added1 ++ added).
      split; [done|]. split; [by rewrite Heff', Heff, <- !app_assoc|].
      split; [by rewrite !first_calls_app, Hcalls, Hcalls'|].
      split; [|by rewrite Hm', Hh', Hd', Hc'].
      intros cb e0 [->|Hin]%elem_of_cons Hr; [congruence|].
      apply elem_of_app. right. by apply Hlog.
Qed.

(** C7, the claim as stated fails.  [on_interrupt], registered before
    [on_request] for the same event type, raises [KeyboardInterrupt], which
    is not an instance of [Exception]: the listener dies with that exception
    while the frame is dispatched, [on_request] is never called for the
    event, the frame that follows is not handled, and nothing is logged. *)
Lemma callback_interrupt_stops_listener :
  handlers_get RequestWillBeSent (Connection.handlers interrupted)
    = Some ["on_interrupt"; "on_request"]
  /\ raised_by signal_env "on_interrupt"
       {| event_type := RequestWillBeSent; event_value := PNone |}
     = Some (SystemSignal "KeyboardInterrupt")
  /\ (Connection._listener signal_env
        [Connection.Frame request_event_frame; Connection.Frame stale_reply] interrupted).2
     = Connection.Died (SystemSignal "KeyboardInterrupt")
  /\ ("on_request"
     ∉ first_calls
         (Connection.effects
            (Connection._listener signal_env
               [Connection.Frame request_event_frame; Connection.Frame stale_reply]
               interrupted).1))
  /\ Connection.effects
       (Connection._listener signal_env
          [Connection.Frame request_event_frame; Connection.Frame stale_reply]
          interrupted).1
     = [Call "on_interrupt" true {| event_type := RequestWillBeSent; event_value := PNone |}].
Proof.
  split; [reflexivity|]. split; [reflexivity|]. split; [reflexivity|].
  split; [|reflexivity].
  intros [H|H]%elem_of_cons; [discriminate H|]. by apply elem_of_nil in H.
Qed.

(** C7, amended.  For an event frame whose callbacks raise nothing but
    instances of [Exception]: the turn of the listener loop ends in
    [continue] and the listener goes on with the frames that follow; every
    callback of the list is called, in registration order, whether or not
    callbacks before it raised; every exception a callback raised is logged
    as a warning; and nothing but the trace of effects changes.  The same
    holds of the task of an async callback: when the task ends with an
    instance of [Exception], its done-callback logs a warning, raises nothing
    and changes nothing else. *)
Theorem callback_failure_isolated (env : Env) (self : Connection.t) (message : Message)
    (event : Event) (callbacks : list Callback) (inputs : list Connection.Recv) :
  msg_id message = None ->
  parse_json_event env message = Some event ->
  handlers_get (event_type event) (Connection.handlers self) = Some callbacks ->
  (forall callback b e, callback ∈ callbacks ->
     callback_call env callback b event = Some e -> is_Exception e = true) ->
  (exists self' added,
     Connection.on_message env self message = (self', Connection.Continue)
     /\ Connection._listener env (Connection.Frame message :: inputs) self
        = Connection._listener env inputs self'
     /\ Connection.effects self' = Connection.effects self ++ added
     /\ first_calls added = callbacks
     /\ (forall callback e, callback ∈ callbacks ->
           raised_by env callback event = Some e ->
           Log WARNING (CallbackFailed callback (type_name (event_type event)) e) ∈ added)
     /\ Connection.mapper self' = Connection.mapper self
     /\ Connection.handlers self' = Connection.handlers self
     /\ Connection.enabled_domains self' = Connection.enabled_domains self
     /\ Connection.count self' = Connection.count self)
  /\ (forall (later : Connection.t) (e : Exc),
        is_Exception e = true ->
        Connection._handle_handler_task_result later (Some e)
        = (Connection.emit later (Log WARNING (TaskFailed e)), None)).
Proof.
  intros Hid Hparse Hget Hexc. split.
  - destruct (dispatch_spec env event callbacks Hexc self)
      as (self' & added & E & Heff & Hcalls & Hlog & Hrest).
    assert (Connection.on_message env self message = (self', Connection.Continue)) as Hmsg.
    { unfold Connection.on_message, handlers_contains. rewrite Hid, Hparse, Hget. simpl.
      destruct callbacks as [|callback rest]; [|done].
      simpl in E. by injection E as <-. }
    exists self', added. split; [done|]. split; [|done].
    cbn [Connection._listener]. by rewrite Hmsg.
  - intros later e He. unfold Connection._handle_handler_task_result. by rewrite He.
Qed.

Lemma callback_failure_isolated_witness :
  (exists self' added,
     Connection.on_message benign_env two_callbacks request_event_frame
       = (self', Connection.Continue)
     /\ Connection._listener benign_env
          (Connection.Frame request_event_frame :: [Connection.Frame stale_reply]) two_callbacks
        = Connection._listener benign_env [Connection.Frame stale_reply] self'
     /\ Connection.effects self' = Connection.effects two_callbacks ++ added
     /\ first_calls added = ["on_error"; "on_request"]
     /\ (forall callback e, callback ∈ ["on_error"; "on_request"] ->
           raised_by benign_env callback
             {| event_type := RequestWillBeSent; event_value := PNone |} = Some e ->
           Log WARNING
             (CallbackFailed callback
                (type_name (event_type {| event_type := RequestWillBeSent; event_value := PNone |}))
                e) ∈ added)
     /\ Connection.mapper self' = Connection.mapper two_callbacks
     /\ Connection.handlers self' = Connection.handlers two_callbacks
     /\ Connection.enabled_domains self' = Connection.enabled_domains two_callbacks
     /\ Connection.count self' = Connection.count two_callbacks)
  /\ (forall (later : Connection.t) (e : Exc),
        is_Exception e = true ->
        Connection._handle_handler_task_result later (Some e)
        = (Connection.emit later (Log WARNING (TaskFailed e)), None)).
Proof.
  apply (callback_failure_isolated benign_env two_callbacks request_event_frame
           {| event_type := RequestWillBeSent; event_value := PNone |}
           ["on_error"; "on_request"] [Connection.Frame stale_reply]);
    [reflexivity|reflexivity|reflexivity|].
  intros callback b e _. simpl. destruct (decide (callback = "on_error")); [|done].
  by intros [= <-].
Defined.

(** Scenario D: [on_error] raises, [on_request] is called all the same, and
    the failure of [on_error] alone is in the log. *)
Example dispatch_after_failure :
  (Connection.on_message benign_env two_callbacks request_event_frame).2
    = Connection.Continue
  /\ Connection.effects (Connection.on_message benign_env two_callbacks request_event_frame).1
     = [Call "on_error" true {| event_type := RequestWillBeSent; event_value := PNone |};
        Log WARNING (CallbackFailed "on_error" "RequestWillBeSent"
                       (OtherException "ValueError" "bad event"));
        Call "on_request" true {| event_type := RequestWillBeSent; event_value := PNone |}].
Proof. split; reflexivity. Qed.

(** ** Correlation ids *)

Lemma sent_ids_emit (self : Connection.t) (e : Effect) :
  Connection.sent_ids (Connection.emit self e)
  = Connection.sent_ids self
    ++ match e with WebsocketSend w => option_list (wire_id w) | _ => [] end.
Proof.
  unfold Connection.sent_ids. simpl. rewrite omap_app. f_equal.
  destruct e as [| w | | |]; simpl; try done; by destruct (wire_id w).
Qed.

Lemma ids_in_sequence_same (self self' : Connection.t) :
  Connection.sent_ids self' = Connection.sent_ids self ->
  Connection.count self' = Connection.count self ->
  ids_in_sequence self -> ids_in_sequence self'.
Proof. unfold ids_in_sequence. by intros -> ->. Qed.

Lemma on_reply_wire (self : Connection.t) (message : Message) (i : Z) :
  Connection.sent_ids (Connection.on_reply self message i).1.1 = Connection.sent_ids self
  /\ Connection.count (Connection.on_reply self message i).1.1 = Connection.count self.
Proof.
  unfold Connection.on_reply.
  destruct (Connection.mapper self !! i) as [tx|].
  - destruct (Transaction.__call__ tx message) as [tx' [e|]]; simpl; [done|].
    rewrite sent_ids_emit. by rewrite app_nil_r.
  - simpl. rewrite sent_ids_emit. by rewrite app_nil_r.
Qed.

Lemma call_callback_wire (env : Env) (self : Connection.t) (callback : Callback)
    (event : Event) :
  Connection.sent_ids (Connection.call_callback env self callback event).1
    = Connection.sent_ids self
  /\ Connection.count (Connection.call_callback env self callback event).1
     = Connection.count self.
Proof.
  unfold Connection.call_callback.
  destruct (callback_kind env callback);
    destruct (callback_call env callback true event) as [e|];
    try destruct (is_TypeError e);
    try destruct (callback_call env callback false event) as [e'|];
    simpl; rewrite ?sent_ids_emit, ?app_nil_r; done.
Qed.

Lemma dispatch_wire (env : Env) (event : Event) (callbacks : list Callback)
    (self : Connection.t) :
  Connection.sent_ids (Connection.dispatch env self event callbacks).1
    = Connection.sent_ids self
  /\ Connection.count (Connection.dispatch env self event callbacks).1
     = Connection.count self.
Proof.
  revert self. induction callbacks as [|callback rest IH]; intros self; [done|].
  cbn [Connection.dispatch].
  destruct (call_callback_wire env self callback event) as [Hs Hc].
  destruct (Connection.call_callback env self callback event) as [self1 [e|]]; simpl in *.
  - destruct (is_Exception e); simpl; [|done].
    match goal with |- context [Connection.dispatch env ?s event rest] =>
      destruct (IH s) as [-> ->] end.
    simpl. by rewrite sent_ids_emit, app_nil_r.
  - destruct (IH self1) as [-> ->]. done.
Qed.

Lemma on_message_wire (env : Env) (self : Connection.t) (message : Message) :
  Connection.sent_ids (Connection.on_message env self message).1 = Connection.sent_ids self
  /\ Connection.count (Connection.on_message env self message).1 = Connection.count self.
Proof.
  unfold Connection.on_message. destruct (msg_id message) as [i|].
  - pose proof (on_reply_wire self message i) as H.
    by destruct (Connection.on_reply self message i) as [[s c] o].
  - destruct (parse_json_event env message) as [event|]; simpl.
    + match goal with |- context [match ?l with [] => _ | _ => _ end] =>
        destruct l eqn:E end; [done|].
      rewrite <- E. apply dispatch_wire.
    + by rewrite sent_ids_emit, app_nil_r.
Qed.

Lemma listener_wire (env : Env) (inputs : list Connection.Recv) (self : Connection.t) :
  Connection.sent_ids (Connection._listener env inputs self).1 = Connection.sent_ids self
  /\ Connection.count (Connection._listener env inputs self).1 = Connection.count self.
Proof.
  revert self. induction inputs as [|r inputs IH]; intros self; [done|].
  destruct r as [message| | | |e]; cbn [Connection._listener].
  - destruct (on_message_wire env self message) as [Hs Hc].
    destruct (Connection.on_message env self message) as [self1 c]. simpl in *.
    destruct c; simpl; [|done|done]. destruct (IH self1) as [-> ->]. done.
  - done.
  - simpl. unfold Connection.disconnect. by rewrite !sent_ids_emit, !app_nil_r.
  - simpl. unfold Connection.disconnect. by rewrite !sent_ids_emit, !app_nil_r.
  - destruct (is_Exception e); simpl; [|done]. by rewrite sent_ids_emit, app_nil_r.
Qed.

(** A command puts one frame on the wire, under the id that the counter
    held, and moves the counter on by one. *)
Lemma send_tx_wire (env : Env) (self : Connection.t) (cdp_obj : CdpObj) :
  Connection.sent_ids (Connection.send_tx env self cdp_obj).1
    = Connection.sent_ids self ++ [Connection.count self]
  /\ Connection.count (Connection.send_tx env self cdp_obj).1 = Connection.count self + 1.
Proof.
  unfold Connection.send_tx, Connection.assign_id.
  destruct (peer env (Connection.count self)) as [e|error result|]; simpl.
  - by rewrite sent_ids_emit.
  - match goal with |- context [Connection.on_reply ?s ?m ?i] =>
      pose proof (on_reply_wire s m i) as [Hs Hc];
      destruct (Connection.on_reply s m i) as [[s3 c] o] end.
    simpl in *. rewrite sent_ids_emit in Hs. simpl in Hs.
    destruct c, o; simpl; done.
  - by rewrite sent_ids_emit.
Qed.

Lemma send_tx_sequence (env : Env) (self : Connection.t) (cdp_obj : CdpObj) :
  ids_in_sequence self -> ids_in_sequence (Connection.send_tx env self cdp_obj).1.
Proof.
  intros [Hpos Hseq]. destruct (send_tx_wire env self cdp_obj) as [Hs Hc].
  split; [lia|]. rewrite Hs, Hc, Hseq, seqZ_app by lia. reflexivity.
Qed.

Lemma send_enable_sequence (env : Env) (self : Connection.t) (domain_mod : option Domain) :
  ids_in_sequence self -> ids_in_sequence (Connection.send_enable env self domain_mod).1.
Proof.
  unfold Connection.send_enable. destruct domain_mod as [d|]; [|done].
  destruct (enable env d); [apply send_tx_sequence|done].
Qed.

Lemma register_loop_sequence (env : Env) (keys : list Key) :
  forall (temp : list (option Domain)) (self : Connection.t),
  ids_in_sequence self ->
  ids_in_sequence (Connection.register_loop env keys temp self).1.1.
Proof.
  induction keys as [|k rest IH]; intros temp self Hinv; [done|].
  rewrite register_loop_cons.
  destruct (negb _); [by apply IH|].
  destruct (bool_decide _); [by apply IH|].
  destruct (always_on _); [by apply IH|].
  cbv zeta.
  match goal with |- context [Connection.send_enable ?e ?s ?d] =>
    assert (ids_in_sequence (Connection.send_enable e s d).1) as Hinv'
      by (apply send_enable_sequence;
          refine (ids_in_sequence_same self _ _ _ Hinv); [|done];
          unfold Connection.sent_ids; simpl; rewrite omap_app; simpl;
          by rewrite app_nil_r);
    destruct (Connection.send_enable e s d) as [self3 o] end.
  simpl in Hinv'. destruct o as [v|e|]; [by apply IH| |done].
  apply IH. refine (ids_in_sequence_same self3 _ _ _ Hinv'); [|done].
  unfold Connection.sent_ids; simpl; rewrite omap_app; simpl.
  by rewrite app_nil_r.
Qed.

Lemma register_handlers_sequence (env : Env) (self : Connection.t) :
  ids_in_sequence self -> ids_in_sequence (Connection._register_handlers env self).1.
Proof.
  intros Hinv. unfold Connection._register_handlers.
  match goal with |- context [Connection.register_loop ?e ?ks ?t ?s] =>
    assert (ids_in_sequence (Connection.register_loop e ks t s).1.1) as Hinv'
      by (by apply register_loop_sequence);
    destruct (Connection.register_loop e ks t s) as [[s2 t2] o] end.
  by destruct o.
Qed.

Lemma send_sequence (env : Env) (self : Connection.t) (cdp_obj : CdpObj) (_is_update : bool) :
  ids_in_sequence self -> ids_in_sequence (Connection.send env self cdp_obj _is_update).1.
Proof.
  intros Hinv. unfold Connection.send. destruct _is_update; [by apply send_tx_sequence|].
  pose proof (register_handlers_sequence env self Hinv) as Hinv'.
  destruct (Connection._register_handlers env self) as [self1 o].
  destruct o; [by apply send_tx_sequence|done|done].
Qed.

Lemma run_op_sequence (env : Env) (self : Connection.t) (op : Connection.Op) :
  ids_in_sequence self -> ids_in_sequence (Connection.run_op env self op).
Proof.
  intros Hinv. destruct op; simpl.
  - by apply send_sequence.
  - by apply send_sequence.
  - done.
  - done.
  - by apply register_handlers_sequence.
  - destruct (listener_wire env inputs self) as [Hs Hc].
    by apply (ids_in_sequence_same self).
  - by apply (ids_in_sequence_same self).
Qed.

Lemma run_sequence (env : Env) (ops : list Connection.Op) :
  ids_in_sequence (Connection.run env ops).
Proof.
  unfold Connection.run.
  assert (ids_in_sequence Connection.__init__) as Hinit by (by split).
  revert Hinit. generalize Connection.__init__ as self.
  induction ops as [|op ops IH]; intros self Hinv; [done|].
  simpl. by apply IH, run_op_sequence.
Qed.

(** C8.  In every run of a connection the ids of the frames it wrote to the
    websocket are strictly increasing, so that none occurs twice; the next
    transaction gets the value of the counter as its id, is stored in the
    pending table under that id, which no earlier frame carried, and the
    frame of the next command carries exactly that id. *)
Theorem ids_strictly_increase (env : Env) (ops : list Connection.Op) :
  let self := Connection.run env ops in
  (forall (i j : nat) (a b : Z),
     (i < j)%nat ->
     Connection.sent_ids self !! i = Some a ->
     Connection.sent_ids self !! j = Some b ->
     a < b)
  /\ NoDup (Connection.sent_ids self)
  /\ (forall tx : Transaction.t,
        Transaction.id (Connection.assign_id self tx).2 = Some (Connection.count self)
        /\ Connection.count (Connection.assign_id self tx).1 = Connection.count self + 1
        /\ Connection.mapper (Connection.assign_id self tx).1 !! Connection.count self
           = Some (Connection.assign_id self tx).2
        /\ Connection.count self ∉ Connection.sent_ids self)
  /\ (forall cdp_obj : CdpObj,
        Connection.sent_ids (Connection.send_tx env self cdp_obj).1
        = Connection.sent_ids self ++ [Connection.count self]).
Proof.
  intros self. destruct (run_sequence env ops) as [Hpos Hseq]. fold self in Hpos, Hseq.
  split; [|split; [|split]].
  - intros i j a b Hlt. rewrite Hseq.
    intros [-> _]%lookup_seqZ [-> _]%lookup_seqZ. lia.
  - rewrite Hseq. apply NoDup_seqZ.
  - intros tx. unfold Connection.assign_id. simpl.
    split; [done|]. split; [done|]. split; [apply lookup_insert_eq|].
    rewrite Hseq, elem_of_seqZ. lia.
  - intros cdp_obj. apply send_tx_wire.
Qed.

(** In the example run the pass enables [cdp.network] under id 0, and the
    two commands follow under the ids 1 and 2. *)
Example example_run_ids :
  Connection.sent_ids (Connection.run benign_env example_run) = [0; 1; 2]
  /\ Connection.count (Connection.run benign_env example_run) = 3.
Proof. split; vm_compute; reflexivity. Qed.

(** ** The scenarios of the specification, run on the model *)

(** Scenario A: the peer answers with a result, and the call gives the
    decoded value; the transaction has left the pending table. *)
Example scenario_result :
  (Connection.send (answering_env (Replies None (Some (PInt 42))))
     Connection.__init__ evaluate_command true).2 = Returned (PInt 42)
  /\ Connection.mapper
       (Connection.send (answering_env (Replies None (Some (PInt 42))))
          Connection.__init__ evaluate_command true).1 !! 0 = None.
Proof. split; vm_compute; reflexivity. Qed.

(** Scenario B: the peer answers with an error, and the call fails with a
    [ProtocolException] that renders as the message and the code. *)
Example scenario_error :
  exists e,
    (Connection.send
       (answering_env
          (Replies (Some (ArgDict [("message", PStr "boom"); ("code", PInt (-32000))])) None))
       Connection.__init__ evaluate_command true).2 = Failed (ProtocolError e)
    /\ ProtocolException.__str__ e = "boom [code: -32000]".
Proof. eexists. split; vm_compute; reflexivity. Qed.

(** Scenario F: a callback on a namespace with two event types makes the
    pass send one enable command, not two. *)
Example scenario_one_enable :
  let self :=
    (Connection._register_handlers benign_env
       (Connection.add_handler Connection.__init__ (One (TModule cdp_network)) "on_event")).1 in
  Connection.sent_ids self = [0]
  /\ Connection.enabled_domains self = [Some "nodriver.cdp.network"].
Proof. split; vm_compute; reflexivity. Qed.

(** A failed enable command is rolled back: the namespace is not marked. *)
Example enable_failure_rolled_back :
  Connection.enabled_domains
    (Connection._register_handlers
       (answering_env (SendFails (OtherException "ConnectionClosed" "")))
       (Connection.add_handler Connection.__init__ (One (TModule cdp_network)) "on_event")).1
  = [].
Proof. vm_compute. reflexivity. Qed.

(** * Further properties of the registry *)

Lemma add_handler_loop_foldl (targets : list Target) (f : Callback) (h : Handlers) :
  Connection.add_handler_loop targets f h
  = foldl (fun h obj => handlers_append obj f h) h (reached_keys targets).
Proof.
  revert h. induction targets as [|[m|k0] ts IH]; intros h; simpl; [done|done|].
  apply IH.
Qed.

Lemma remove_handler_loop_foldl (targets : list Target) (h : Handlers) :
  Connection.remove_handler_loop targets h
  = foldl (fun h obj => if handlers_contains obj h then handlers_del obj h else h)
          h (reached_keys targets).
Proof.
  revert h. induction targets as [|[m|k0] ts IH]; intros h; simpl; [done|done|].
  apply IH.
Qed.

Lemma foldl_append_get_exact (keys : list Key) (f : Callback) (h : Handlers) (k : Key) :
  handlers_get k (foldl (fun h obj => handlers_append obj f h) h keys)
  = match occurrences k keys with
    | O => handlers_get k h
    | S n => Some (default [] (handlers_get k h) ++ replicate (S n) f)
    end.
Proof.
  revert h. induction keys as [|a keys IH]; intros h; [done|].
  cbn [foldl occurrences]. rewrite IH, handlers_get_append.
  destruct (decide (k = a)) as [->|Hne].
  - rewrite decide_True by done.
    destruct (occurrences a keys) as [|n]; [done|].
    simpl. by rewrite <- app_assoc.
  - rewrite decide_False by done. done.
Qed.

(** X1.  [add_handler] appends the callback at the end of the callback list
    of every event type that its loop reaches, once for each time the type is
    reached, creating the list if there was none; the lists of all other
    event types are left as they were. *)
Theorem add_handler_appends (self : Connection.t) (arg : TargetArg) (f : Callback)
    (k : Key) :
  handlers_get k (Connection.handlers (Connection.add_handler self arg f))
  = match occurrences k (reached_keys (as_list arg)) with
    | O => handlers_get k (Connection.handlers self)
    | S n =>
        Some (default [] (handlers_get k (Connection.handlers self)) ++ replicate (S n) f)
    end.
Proof.
  unfold Connection.add_handler. simpl.
  rewrite add_handler_loop_foldl. apply foldl_append_get_exact.
Qed.

(** X2.  [remove_handler] without a callback deletes the entries of the event
    types that its loop reaches and nothing else: every other event type
    keeps its callback list. *)
Theorem remove_handler_deletes_targets (self : Connection.t) (arg : TargetArg) (k : Key) :
  handlers_get k (Connection.handlers (Connection.remove_handler self arg None))
  = if decide (k ∈ reached_keys (as_list arg)) then None
    else handlers_get k (Connection.handlers self).
Proof.
  unfold Connection.remove_handler. simpl. apply remove_handler_loop_get.
Qed.

Lemma handlers_del_absent (k : Key) (h : Handlers) :
  handlers_get k h = None -> handlers_del k h = h.
Proof.
  unfold handlers_del. induction h as [|[k0 l] h IH]; [done|]. simpl.
  destruct (decide (k = k0)) as [->|Hne]; [done|]. intros Hnone.
  rewrite filter_cons. simpl. rewrite decide_True by done. by rewrite IH.
Qed.

Lemma filter_all {A} (P : A -> Prop) `{forall x, Decision (P x)} (l : list A) :
  (forall x, x ∈ l -> P x) -> filter P l = l.
Proof.
  induction l as [|x l IH]; intros Hall; [done|].
  rewrite filter_cons, decide_True by (apply Hall, elem_of_cons; auto).
  rewrite IH; [done|]. intros y Hy. apply Hall, elem_of_cons. auto.
Qed.

Lemma foldl_del_filter (keys : list Key) (h : Handlers) :
  foldl (fun h obj => if handlers_contains obj h then handlers_del obj h else h) h keys
  = filter (fun entry => entry.1 ∉ keys) h.
Proof.
  revert h. induction keys as [|a keys IH]; intros h.
  - simpl. symmetry. apply filter_all. intros x _. apply not_elem_of_nil.
  - cbn [foldl]. rewrite IH.
    assert ((if handlers_contains a h then handlers_del a h else h) = handlers_del a h) as ->.
    { unfold handlers_contains. destruct (handlers_get a h) eqn:E; [done|].
      by rewrite handlers_del_absent. }
    unfold handlers_del. rewrite list_filter_filter. apply list_filter_iff.
    intros [k0 l]. simpl. rewrite not_elem_of_cons. tauto.
Qed.

Lemma filter_handlers_append (keys : list Key) (a : Key) (f : Callback) (h : Handlers) :
  a ∈ keys ->
  filter (fun entry => entry.1 ∉ keys) (handlers_append a f h)
  = filter (fun entry : Key * list string => entry.1 ∉ keys) h.
Proof.
  intros Ha. induction h as [|[k0 l] h IH]; simpl.
  - by rewrite filter_cons, decide_False by (simpl; tauto).
  - destruct (decide (a = k0)) as [->|Hne].
    + by rewrite !filter_cons, !decide_False by (simpl; tauto).
    + rewrite !filter_cons. simpl. rewrite IH. done.
Qed.

Lemma filter_foldl_append (keys keys' : list Key) (f : Callback) (h : Handlers) :
  (forall k, k ∈ keys' -> k ∈ keys) ->
  filter (fun entry => entry.1 ∉ keys)
    (foldl (fun h obj => handlers_append obj f h) h keys')
  = filter (fun entry : Key * list string => entry.1 ∉ keys) h.
Proof.
  revert h. induction keys' as [|a keys' IH]; intros h Hsub; [done|].
  cbn [foldl]. rewrite IH by (intros k Hk; apply Hsub, elem_of_cons; auto).
  apply filter_handlers_append, Hsub, elem_of_cons. auto.
Qed.

(** X3.  Registering a callback for targets none of whose event types is in
    the registry, and then unregistering the same targets, gives back the
    connection as it was. *)
Theorem add_then_remove_handler (self : Connection.t) (arg : TargetArg) (f : Callback) :
  (forall k, k ∈ reached_keys (as_list arg) ->
     handlers_get k (Connection.handlers self) = None) ->
  Connection.remove_handler (Connection.add_handler self arg f) arg None = self.
Proof.
  intros Hfresh. unfold Connection.remove_handler, Connection.add_handler.
  destruct self as [m h e c l]. unfold Connection.set_handlers. simpl in *. f_equal.
  rewrite remove_handler_loop_foldl, add_handler_loop_foldl, foldl_del_filter.
  rewrite filter_foldl_append by done.
  apply filter_all. intros [k0 cbs] Hin. simpl. intros Hk.
  apply Hfresh, handlers_get_None in Hk. apply Hk.
  apply list_elem_of_fmap. by exists (k0, cbs).
Qed.

Lemma add_then_remove_handler_witness :
  Connection.remove_handler
    (Connection.add_handler twice_registered (Many [TObject FrameNavigated; TModule cdp_page]) "on_page")
    (Many [TObject FrameNavigated; TModule cdp_page]) None
  = twice_registered.
Proof.
  apply add_then_remove_handler.
  intros k Hk. vm_compute in Hk.
  apply elem_of_cons in Hk as [->|Hk]; [reflexivity|].
  apply elem_of_cons in Hk as [->|Hk]; [reflexivity|].
  apply elem_of_cons in Hk as [->|Hk]; [reflexivity|].
  by apply elem_of_nil in Hk.
Defined.

(** * Further properties: what every run keeps *)

Lemma handlers_append_keys (k x : Key) (f : Callback) (h : Handlers) :
  x ∈ map fst (handlers_append k f h) -> x = k \/ x ∈ map fst h.
Proof.
  induction h as [|[k0 l] h IH]; simpl.
  - intros [->|?%elem_of_nil]%elem_of_cons; [by left|done].
  - destruct (decide (k = k0)) as [->|Hne]; simpl; [by right|].
    rewrite !elem_of_cons. intros [->|Hin]; [by right; left|].
    destruct (IH Hin); [by left|by right; right].
Qed.

Lemma handlers_append_NoDup (k : Key) (f : Callback) (h : Handlers) :
  NoDup (map fst h) -> NoDup (map fst (handlers_append k f h)).
Proof.
  induction h as [|[k0 l] h IH]; simpl.
  - intros _. apply NoDup_singleton.
  - destruct (decide (k = k0)) as [->|Hne]; simpl; [done|].
    rewrite !NoDup_cons. intros [Hk0 Hnd]. split; [|by apply IH].
    intros [?|?]%handlers_append_keys; [congruence|done].
Qed.

Lemma handlers_del_keys (k x : Key) (h : Handlers) :
  x ∈ map fst (handlers_del k h) -> x ∈ map fst h.
Proof.
  unfold handlers_del. induction h as [|[k0 l] h IH]; [done|].
  rewrite filter_cons. simpl. destruct (decide (k0 <> k)); simpl.
  - rewrite !elem_of_cons. intros [->|?]; [by left|right; auto].
  - rewrite elem_of_cons. auto.
Qed.

Lemma handlers_del_NoDup (k : Key) (h : Handlers) :
  NoDup (map fst h) -> NoDup (map fst (handlers_del k h)).
Proof.
  induction h as [|[k0 l] h IH]; [done|]. simpl. rewrite NoDup_cons.
  intros [Hk0 Hnd]. unfold handlers_del in *. rewrite filter_cons. simpl.
  destruct (decide (k0 <> k)); simpl; [|by apply IH].
  apply NoDup_cons. split; [|by apply IH].
  intros Hin. by apply handlers_del_keys in Hin.
Qed.

Lemma handlers_remove_keys (k : Key) (f : Callback) (h : Handlers) :
  map fst (handlers_remove k f h) = map fst h.
Proof.
  induction h as [|[k0 l] h IH]; [done|]. simpl.
  destruct (decide (k = k0)); simpl; [done|]. by rewrite IH.
Qed.

Lemma add_handler_loop_NoDup (targets : list Target) (f : Callback) (h : Handlers) :
  NoDup (map fst h) -> NoDup (map fst (Connection.add_handler_loop targets f h)).
Proof.
  rewrite add_handler_loop_foldl. generalize (reached_keys targets) as keys.
  intros keys. revert h. induction keys as [|a keys IH]; intros h Hnd; [done|].
  simpl. by apply IH, handlers_append_NoDup.
Qed.

Lemma remove_handler_loop_NoDup (targets : list Target) (h : Handlers) :
  NoDup (map fst h) -> NoDup (map fst (Connection.remove_handler_loop targets h)).
Proof.
  rewrite remove_handler_loop_foldl. generalize (reached_keys targets) as keys.
  intros keys. revert h. induction keys as [|a keys IH]; intros h Hnd; [done|].
  simpl. apply IH. destruct (handlers_contains a h); [by apply handlers_del_NoDup|done].
Qed.

Lemma remove_everywhere_keys (f : Callback) (h : Handlers) :
  map fst (Connection.remove_everywhere f h) = map fst h.
Proof.
  unfold Connection.remove_everywhere. generalize (map fst h) at 1 as keys.
  intros keys. revert h. induction keys as [|a keys IH]; intros h; [done|].
  simpl. rewrite IH. destruct (bool_decide _); [apply handlers_remove_keys|done].
Qed.

Lemma prune_NoDup (keys : list Key) (h : Handlers) :
  NoDup (map fst h) -> NoDup (map fst (Connection.prune keys h)).
Proof.
  unfold Connection.prune. revert h. induction keys as [|a keys IH]; intros h Hnd; [done|].
  simpl. apply IH. destruct (Nat.eqb _ _); [by apply handlers_del_NoDup|done].
Qed.

Lemma consistent_same (self self' : Connection.t) :
  Connection.handlers self' = Connection.handlers self ->
  Connection.mapper self' = Connection.mapper self ->
  Connection.count self' = Connection.count self ->
  consistent self -> consistent self'.
Proof. unfold consistent. by intros -> -> ->. Qed.

Lemma on_reply_consistent (self : Connection.t) (message : Message) (i : Z) :
  consistent self -> consistent (Connection.on_reply self message i).1.1.
Proof.
  intros (Hnd & Hpos & Hmap). unfold Connection.on_reply.
  destruct (Connection.mapper self !! i) as [tx|] eqn:E; [|done].
  assert (consistent (Connection.set_mapper self (delete i (Connection.mapper self)))) as H.
  { split; [done|]. split; [done|]. simpl.
    intros j tx' [_ Hj]%lookup_delete_Some. by apply Hmap. }
  by destruct (Transaction.__call__ tx message) as [tx' [e|]].
Qed.

Lemma dispatch_tables (env : Env) (event : Event) (callbacks : list Callback)
    (self : Connection.t) :
  Connection.handlers (Connection.dispatch env self event callbacks).1
    = Connection.handlers self
  /\ Connection.mapper (Connection.dispatch env self event callbacks).1
     = Connection.mapper self
  /\ Connection.enabled_domains (Connection.dispatch env self event callbacks).1
     = Connection.enabled_domains self.
Proof.
  revert self. induction callbacks as [|callback rest IH]; intros self; [done|].
  cbn [Connection.dispatch].
  destruct (call_callback_spec env self callback event)
    as (added & _ & _ & Hm & Hh & Hd & _ & _).
  destruct (Connection.call_callback env self callback event) as [self1 [e|]]; simpl in *.
  - destruct (is_Exception e); simpl; [|done].
    match goal with |- context [Connection.dispatch env ?s event rest] =>
      destruct (IH s) as (-> & -> & ->) end.
    done.
  - destruct (IH self1) as (-> & -> & ->). done.
Qed.

Lemma on_message_consistent (env : Env) (self : Connection.t) (message : Message) :
  consistent self -> consistent (Connection.on_message env self message).1.
Proof.
  intros Hc. unfold Connection.on_message. destruct (msg_id message) as [i|].
  - pose proof (on_reply_consistent self message i Hc) as H.
    by destruct (Connection.on_reply self message i) as [[s c] o].
  - destruct (parse_json_event env message) as [event|]; [|done].
    match goal with |- context [match ?l with [] => _ | _ => _ end] =>
      destruct l eqn:E end; [done|].
    rewrite <- E.
    match goal with |- context [Connection.dispatch env self event ?l] =>
      destruct (dispatch_tables env event l self) as (Hh & Hm & _);
      destruct (dispatch_wire env event l self) as [_ Hcount] end.
    by apply (consistent_same self).
Qed.

Lemma listener_consistent (env : Env) (inputs : list Connection.Recv) (self : Connection.t) :
  consistent self -> consistent (Connection._listener env inputs self).1.
Proof.
  revert self. induction inputs as [|r inputs IH]; intros self Hc; [done|].
  destruct r as [message| | | |e]; cbn [Connection._listener]; try done.
  - pose proof (on_message_consistent env self message Hc) as H.
    destruct (Connection.on_message env self message) as [self1 c]. simpl in H.
    destruct c; simpl; [by apply IH|done|done].
  - by destruct (is_Exception e).
Qed.

Lemma send_tx_consistent (env : Env) (self : Connection.t) (cdp_obj : CdpObj) :
  consistent self -> consistent (Connection.send_tx env self cdp_obj).1.
Proof.
  intros (Hnd & Hpos & Hmap). unfold Connection.send_tx, Connection.assign_id.
  match goal with |- context [Connection.emit ?s ?e] =>
    assert (consistent (Connection.emit s e)) as H end.
  { split; [done|]. split; [simpl; lia|]. simpl.
    intros j tx [[<- <-]|[Hne Hj]]%lookup_insert_Some.
    - simpl. split; [done|]. split; [by left|]. lia.
    - apply Hmap in Hj. intuition lia. }
  destruct (peer env (Connection.count self)) as [e|error result|]; [done| |done].
  match goal with |- context [Connection.on_reply ?s ?m ?i] =>
    pose proof (on_reply_consistent s m i H) as H';
    destruct (Connection.on_reply s m i) as [[s3 c] o] end.
  simpl in H'. by destruct c, o.
Qed.

Lemma send_enable_consistent (env : Env) (self : Connection.t) (domain_mod : option Domain) :
  consistent self -> consistent (Connection.send_enable env self domain_mod).1.
Proof.
  unfold Connection.send_enable. destruct domain_mod as [d|]; [|done].
  destruct (enable env d); [apply send_tx_consistent|done].
Qed.

Lemma register_loop_consistent (env : Env) (keys : list Key) :
  forall (temp : list (option Domain)) (self : Connection.t),
  consistent self ->
  consistent (Connection.register_loop env keys temp self).1.1.
Proof.
  induction keys as [|k rest IH]; intros temp self Hc; [done|].
  rewrite register_loop_cons.
  destruct (negb _); [by apply IH|].
  destruct (bool_decide _); [by apply IH|].
  destruct (always_on _); [by apply IH|].
  cbv zeta.
  match goal with |- context [Connection.send_enable ?e ?s ?d] =>
    assert (consistent (Connection.send_enable e s d).1) as Hc'
      by (by apply send_enable_consistent);
    destruct (Connection.send_enable e s d) as [self3 o] end.
  simpl in Hc'. destruct o as [v|e|]; [by apply IH| |done].
  by apply IH.
Qed.

Lemma register_handlers_consistent (env : Env) (self : Connection.t) :
  consistent self -> consistent (Connection._register_handlers env self).1.
Proof.
  intros (Hnd & Hpos & Hmap). unfold Connection._register_handlers.
  match goal with |- context [Connection.register_loop ?e ?ks ?t ?s] =>
    assert (consistent (Connection.register_loop e ks t s).1.1) as Hc'
      by (apply register_loop_consistent; split; [by apply prune_NoDup|done]);
    destruct (Connection.register_loop e ks t s) as [[s2 t2] o] end.
  by destruct o.
Qed.

Lemma run_op_consistent (env : Env) (self : Connection.t) (op : Connection.Op) :
  consistent self -> consistent (Connection.run_op env self op).
Proof.
  intros Hc. destruct op as [g u|g|t f|t f| |inputs|i]; simpl.
  - unfold Connection.send. destruct u; [by apply send_tx_consistent|].
    pose proof (register_handlers_consistent env self Hc) as Hc'.
    destruct (Connection._register_handlers env self) as [self1 o].
    destruct o; [by apply send_tx_consistent|done|done].
  - by apply send_tx_consistent.
  - destruct Hc as (Hnd & Hrest). split; [|done]. by apply add_handler_loop_NoDup.
  - destruct Hc as (Hnd & Hrest). split; [|done]. simpl.
    apply remove_handler_loop_NoDup. destruct f as [f|]; [|done].
    by rewrite remove_everywhere_keys.
  - by apply register_handlers_consistent.
  - by apply listener_consistent.
  - destruct Hc as (Hnd & Hpos & Hmap). split; [done|]. split; [done|].
    unfold Connection.cancel_waiter. simpl. intros j tx Hj.
    apply lookup_alter_Some in Hj as [(<- & tx0 & Hj & ->)|[_ Hj]]; [|by apply Hmap].
    apply Hmap in Hj as (Hid & Hfut & Hrange).
    destruct (Transaction.done tx0); [done|]. simpl. auto.
Qed.

Lemma run_consistent (env : Env) (ops : list Connection.Op) :
  consistent (Connection.run env ops).
Proof.
  unfold Connection.run.
  assert (consistent Connection.__init__) as Hinit.
  { split; [apply NoDup_nil_2|]. split; [done|]. intros i tx. simpl.
    by rewrite lookup_empty. }
  revert Hinit. generalize Connection.__init__ as self.
  induction ops as [|op ops IH]; intros self Hc; [done|].
  simpl. by apply IH, run_op_consistent.
Qed.

(** X6.  In every run of a connection, with commands sent, replies and
    events received, handlers changed and waiting callers cancelled, the
    pending table never holds a transaction that a reply has resolved or
    rejected: each transaction in it is pending or was cancelled by its
    caller, carries the id it is stored under, and that id is one the
    counter has already given out; in particular the id that the next
    command will get is not in the table. *)
Theorem pending_table_invariant (env : Env) (ops : list Connection.Op) :
  let self := Connection.run env ops in
  (forall (i : Z) (tx : Transaction.t),
     Connection.mapper self !! i = Some tx ->
     Transaction.id tx = Some i
     /\ (Transaction.future tx = Pending \/ Transaction.future tx = Cancelled)
     /\ 0 <= i < Connection.count self)
  /\ Connection.mapper self !! Connection.count self = None.
Proof.
  intros self. destruct (run_consistent env ops) as (_ & _ & Hmap). fold self in Hmap.
  split; [done|].
  destruct (Connection.mapper self !! Connection.count self) as [tx|] eqn:E; [|done].
  apply Hmap in E. lia.
Qed.

(** * Further properties: how a command ends *)

(** X7.  When writing the frame to the websocket fails, [send] raises that
    exception to its caller and the transaction stays in the pending table
    under its id: nothing removes it. *)
Theorem send_transmit_failure (env : Env) (self : Connection.t) (cdp_obj : CdpObj)
    (e : Exc) :
  peer env (Connection.count self) = SendFails e ->
  (Connection.send env self cdp_obj true).2 = Failed e
  /\ Connection.mapper (Connection.send env self cdp_obj true).1 !! Connection.count self
     = Some (Transaction.set_id (Transaction.__init__ cdp_obj) (Connection.count self)).
Proof.
  intros Hpeer. unfold Connection.send, Connection.send_tx, Connection.assign_id.
  rewrite Hpeer. simpl. split; [done|]. apply lookup_insert_eq.
Qed.

Lemma send_transmit_failure_witness :
  (Connection.send (answering_env (SendFails (OtherException "ConnectionClosed" "")))
     Connection.__init__ evaluate_command true).2
    = Failed (OtherException "ConnectionClosed" "")
  /\ Connection.mapper
       (Connection.send (answering_env (SendFails (OtherException "ConnectionClosed" "")))
          Connection.__init__ evaluate_command true).1 !! Connection.count Connection.__init__
     = Some (Transaction.set_id (Transaction.__init__ evaluate_command)
               (Connection.count Connection.__init__)).
Proof.
  apply (send_transmit_failure
           (answering_env (SendFails (OtherException "ConnectionClosed" "")))
           Connection.__init__ evaluate_command (OtherException "ConnectionClosed" "")).
  reflexivity.
Defined.

(** X8.  When the peer answers a command with an error, [send] raises the
    [ProtocolException] built from the error payload, whether or not the
    reply also carries a result, and the pending table is as it was before
    the command. *)
Theorem send_error_reply (env : Env) (self : Connection.t) (cdp_obj : CdpObj)
    (err : ExcArg) (result : option PyVal) :
  peer env (Connection.count self) = Replies (Some err) result ->
  Connection.mapper self !! Connection.count self = None ->
  (Connection.send env self cdp_obj true).2
    = Failed (ProtocolError (ProtocolException.__init__ err []))
  /\ Connection.mapper (Connection.send env self cdp_obj true).1 = Connection.mapper self.
Proof.
  intros Hpeer Hfresh.
  unfold Connection.send, Connection.send_tx, Connection.assign_id, Connection.on_reply.
  rewrite Hpeer. simpl. rewrite lookup_insert_eq. simpl.
  split; [done|]. rewrite delete_insert_eq. by apply delete_id.
Qed.

Lemma send_error_reply_witness :
  (Connection.send
     (answering_env
        (Replies (Some (ArgDict [("message", PStr "boom"); ("code", PInt (-32000))]))
           (Some empty_dict)))
     Connection.__init__ evaluate_command true).2
    = Failed (ProtocolError
                (ProtocolException.__init__
                   (ArgDict [("message", PStr "boom"); ("code", PInt (-32000))]) []))
  /\ Connection.mapper
       (Connection.send
          (answering_env
             (Replies (Some (ArgDict [("message", PStr "boom"); ("code", PInt (-32000))]))
                (Some empty_dict)))
          Connection.__init__ evaluate_command true).1
     = Connection.mapper Connection.__init__.
Proof.
  apply (send_error_reply
           (answering_env
              (Replies (Some (ArgDict [("message", PStr "boom"); ("code", PInt (-32000))]))
                 (Some empty_dict)))
           Connection.__init__ evaluate_command
           (ArgDict [("message", PStr "boom"); ("code", PInt (-32000))])
           (Some empty_dict));
    reflexivity.
Defined.

(** X9.  When the peer answers a command with a result and no error, [send]
    returns the value that the codec returns for the raw result, and the
    transaction has left the pending table; when the codec raises or yields
    again instead, the transaction has left the table all the same and the
    caller is never resumed. *)
Theorem send_result_reply (env : Env) (self : Connection.t) (cdp_obj : CdpObj)
    (raw : PyVal) :
  peer env (Connection.count self) = Replies None (Some raw) ->
  Connection.mapper self !! Connection.count self = None ->
  (Connection.send env self cdp_obj true).2
    = match cdp_resume cdp_obj raw with
      | Return value => Returned value
      | _ => Suspended
      end
  /\ Connection.mapper (Connection.send env self cdp_obj true).1 = Connection.mapper self.
Proof.
  intros Hpeer Hfresh.
  unfold Connection.send, Connection.send_tx, Connection.assign_id, Connection.on_reply.
  rewrite Hpeer. simpl. rewrite lookup_insert_eq.
  unfold Transaction.__call__. simpl.
  assert (delete (Connection.count self)
            (<[Connection.count self :=
                 Transaction.set_id (Transaction.__init__ cdp_obj) (Connection.count self)]>
               (Connection.mapper self)) = Connection.mapper self) as Hdel.
  { rewrite delete_insert_eq. by apply delete_id. }
  destruct (cdp_resume cdp_obj raw) as [y rest|value|e]; simpl; [done|done|].
  by destruct e.
Qed.

Lemma send_result_reply_witness :
  (Connection.send (answering_env (Replies None (Some (PInt 42))))
     Connection.__init__ evaluate_command true).2
    = match cdp_resume evaluate_command (PInt 42) with
      | Return value => Returned value
      | _ => Suspended
      end
  /\ Connection.mapper
       (Connection.send (answering_env (Replies None (Some (PInt 42))))
          Connection.__init__ evaluate_command true).1
     = Connection.mapper Connection.__init__.
Proof.
  apply (send_result_reply (answering_env (Replies None (Some (PInt 42))))
           Connection.__init__ evaluate_command (PInt 42));
    reflexivity.
Defined.


(** * Further properties of the reconciliation pass *)

Lemma send_enable_returned (env : Env) (self self' : Connection.t) (d : Domain)
    (value : PyVal) :
  Connection.send_enable env self (Some d) = (self', Returned value) ->
  Connection.sent_ids self' = Connection.sent_ids self ++ [Connection.count self]
  /\ Connection.count self' = Connection.count self + 1
  /\ Connection.enabled_domains self' = Connection.enabled_domains self.
Proof.
  unfold Connection.send_enable. destruct (enable env d) as [g|]; [|done].
  intros H. destruct (send_tx_wire env self g) as [Hs Hc].
  destruct (send_tx_registry env self g) as [_ Hd].
  rewrite H in Hs, Hc, Hd. done.
Qed.

Lemma sent_ids_set_enabled_domains (self : Connection.t) (l : list (option Domain)) :
  Connection.sent_ids (Connection.set_enabled_domains self l) = Connection.sent_ids self.
Proof. reflexivity. Qed.

(** In a loop of the pass that completes with no enable command having
    failed, the namespaces that the loop subscribes are appended to
    [enabled_domains], and one command is sent for each. *)
Lemma register_loop_new (env : Env) (keys : list Key) :
  forall (temp : list (option Domain)) (self self' : Connection.t)
         (temp' : list (option Domain)) (u : unit) (added : list Effect),
  Connection.register_loop env keys temp self = (self', temp', Returned u) ->
  Connection.effects self' = Connection.effects self ++ added ->
  Log DEBUG EnableFailed ∉ added ->
  exists new,
    Connection.enabled_domains self' = Connection.enabled_domains self ++ new
    /\ Connection.count self' = Connection.count self + Z.of_nat (length new)
    /\ Connection.sent_ids self'
       = Connection.sent_ids self ++ seqZ (Connection.count self) (Z.of_nat (length new))
    /\ (forall x, x ∈ new ->
          (x ∉ Connection.enabled_domains self) /\ (exists d : Domain, x = Some d))
    /\ NoDup new.
Proof.
  induction keys as [|k rest IH]; intros temp self self' temp' u added Hloop Heff Hlog.
  - simpl in Hloop. injection Hloop as <- <- _. exists []. simpl.
    rewrite !app_nil_r, Z.add_0_r.
    split; [done|]. split; [done|]. split; [done|].
    split; [by intros x ?%elem_of_nil|apply NoDup_nil_2].
  - rewrite register_loop_cons in Hloop.
    destruct (negb _); [by eapply IH|].
    case_bool_decide as Hin; [by eapply IH|].
    destruct (always_on _); [by eapply IH|].
    cbv zeta in Hloop.
    match type of Hloop with context [Connection.send_enable ?e ?s ?d] =>
      destruct (send_enable_effects e s d) as [a1 Ha1];
      destruct (Connection.send_enable e s d) as [self3 o] eqn:Hsend end.
    simpl in Ha1. destruct o as [v|e|]; [| |done].
    + destruct (domain_of env k) as [d|]; [|done].
      destruct (send_enable_returned env _ self3 d v Hsend) as (Hs & Hc & Hd).
      simpl in Hs, Hc, Hd.
      rewrite sent_ids_set_enabled_domains, sent_ids_emit, app_nil_r in Hs.
      destruct (register_loop_effects env rest temp self3) as [a2 Ha2].
      rewrite Hloop in Ha2. simpl in Ha2.
      assert (added = ([Log DEBUG (Registered (Some d))] ++ a1) ++ a2) as ->.
      { apply (app_inv_head (Connection.effects self)).
        by rewrite <- Heff, Ha2, Ha1, <- !app_assoc. }
      destruct (IH temp self3 self' temp' u a2 Hloop Ha2)
        as (new & HE & Hcount & Hsent & Hnew & Hnd).
      { intros ?. apply Hlog, elem_of_app. by right. }
      exists (Some d :: new).
      split; [by rewrite HE, Hd, <- app_assoc|].
      split; [rewrite Hcount, Hc; simpl length; lia|].
      split.
      { rewrite Hsent, Hs, Hc, <- app_assoc. f_equal.
        replace (Z.of_nat (length (Some d :: new))) with (1 + Z.of_nat (length new))
          by (simpl length; lia).
        rewrite seqZ_app by lia. reflexivity. }
      split.
      { intros x [->|Hx]%elem_of_cons; [split; [done|eauto]|].
        destruct (Hnew x Hx) as [Hnin Hsome]. split; [|done].
        rewrite Hd in Hnin. intros ?. apply Hnin, elem_of_app. by left. }
      apply NoDup_cons. split; [|done]. intros Hx.
      destruct (Hnew _ Hx) as [Hnin _]. apply Hnin. rewrite Hd.
      apply elem_of_app. right. by apply list_elem_of_singleton.
    + exfalso.
      match type of Hloop with Connection.register_loop env rest temp ?s = _ =>
        destruct (register_loop_effects env rest temp s) as [a2 Ha2] end.
      rewrite Hloop in Ha2. simpl in Ha2.
      apply Hlog.
      assert (added = ([Log DEBUG (Registered (domain_of env k))] ++ a1)
                      ++ [Log DEBUG EnableFailed] ++ a2) as ->.
      { apply (app_inv_head (Connection.effects self)).
        by rewrite <- Heff, Ha2, Ha1, <- !app_assoc. }
      apply elem_of_app. right. apply elem_of_app. left. by apply list_elem_of_singleton.
Qed.

(** A loop that finds every module of a registered key subscribed already,
    or always on, sends nothing and leaves the connection as it is. *)
Lemma register_loop_quiet (env : Env) (keys : list Key) (self : Connection.t) :
  (forall k, k ∈ keys -> handlers_contains k (Connection.handlers self) = true ->
     domain_of env k ∈ Connection.enabled_domains self
     \/ always_on (domain_of env k) = true) ->
  forall temp : list (option Domain),
  exists temp', Connection.register_loop env keys temp self = (self, temp', Returned tt).
Proof.
  induction keys as [|k rest IH]; intros Hall temp; [by eexists|].
  rewrite register_loop_cons.
  assert (forall k', k' ∈ rest ->
            handlers_contains k' (Connection.handlers self) = true ->
            domain_of env k' ∈ Connection.enabled_domains self
            \/ always_on (domain_of env k') = true) as Hrest.
  { intros k' Hk'. apply Hall, elem_of_cons. by right. }
  destruct (handlers_contains k (Connection.handlers self)) eqn:Hc; simpl; [|by apply IH].
  destruct (decide (domain_of env k ∈ Connection.enabled_domains self)) as [Hin|Hin].
  - rewrite bool_decide_eq_true_2 by done. by apply IH.
  - rewrite bool_decide_eq_false_2 by done.
    destruct (Hall k) as [?| ->]; [apply elem_of_cons; by left|done|done|by apply IH].
Qed.

Lemma handlers_contains_key (k : Key) (h : Handlers) :
  handlers_contains k h = true -> k ∈ map fst h.
Proof.
  unfold handlers_contains. intros Hc.
  destruct (decide (k ∈ map fst h)) as [|Hn]; [done|].
  apply handlers_get_None in Hn. by rewrite Hn in Hc.
Qed.

Lemma prune_contains (keys : list Key) (h : Handlers) (k : Key) :
  handlers_contains k (Connection.prune keys h) = true -> handlers_contains k h = true.
Proof.
  unfold handlers_contains. rewrite prune_get. by case_decide.
Qed.

(** X11.  After any pass that completes, whatever became of its enable
    commands, every namespace in [enabled_domains] has an event type with a
    non-empty callback list, and was either subscribed before the pass or is
    not one of the always-on namespaces: a namespace that lost its handlers
    is dropped. *)
Theorem register_handlers_drops_unused (env : Env) (self self' : Connection.t) (u : unit)
    (d : Domain) :
  Connection._register_handlers env self = (self', Returned u) ->
  Some d ∈ Connection.enabled_domains self' ->
  has_handlers env (Connection.handlers self') d
  /\ (Some d ∈ Connection.enabled_domains self \/ always_on (Some d) = false).
Proof.
  intros Hpass. pose proof (register_handlers_handlers env self) as Hh.
  rewrite Hpass in Hh. simpl in Hh. rewrite Hh, <- serves_pruned.
  unfold Connection._register_handlers in Hpass.
  set (h := Connection.handlers self) in *.
  destruct (Connection.register_loop env (map fst h) (Connection.enabled_domains self)
              (Connection.set_handlers self (Connection.prune (map fst h) h)))
    as [[self2 temp'] o] eqn:E.
  destruct o as [[]| |]; [|done|done]. injection Hpass as <- _. simpl.
  pose proof (register_loop_spec _ _ _ _ _ _ _ E (Some d)) as (I1 & I2 & I3 & I4 & I5).
  simpl in *. rewrite occurrences_elem_of, occurrences_remove_all. intros Hpos.
  destruct (decide (Some d ∈ Connection.enabled_domains self)) as [Hin|Hin].
  - split; [|by left].
    destruct (serves_decidable env (Connection.prune (map fst h) h) (map fst h) (Some d))
      as [|Hns]; [done|].
    apply I2 in Hns as [Ht Hd]. lia.
  - destruct (I5 Hin) as [_ I5']. destruct I5' as [? ?]; [|auto].
    apply occurrences_elem_of. lia.
Qed.

Lemma register_handlers_drops_unused_witness :
  has_handlers benign_env
    (Connection.handlers (Connection._register_handlers benign_env two_domains).1)
    "nodriver.cdp.network"
  /\ (Some "nodriver.cdp.network" ∈ Connection.enabled_domains two_domains
      \/ always_on (Some "nodriver.cdp.network") = false).
Proof.
  apply (register_handlers_drops_unused benign_env two_domains
           (Connection._register_handlers benign_env two_domains).1 tt).
  - vm_compute. reflexivity.
  - vm_compute. apply elem_of_cons. by left.
Defined.

(** X12.  A pass that completes with no enable command having failed (its
    log has no record of a failed enable) writes exactly one frame for each
    namespace that it adds to [enabled_domains], under consecutive ids, and
    none for any other namespace: several event types of one namespace cost
    one enable command, and no disable command is ever sent. *)
Theorem register_handlers_one_enable_each (env : Env) (self self' : Connection.t)
    (u : unit) (added : list Effect) :
  Connection._register_handlers env self = (self', Returned u) ->
  Connection.effects self' = Connection.effects self ++ added ->
  Log DEBUG EnableFailed ∉ added ->
  exists new,
    NoDup new
    /\ (forall x, x ∈ new -> exists d : Domain, x = Some d)
    /\ (forall x, x ∈ new
          <-> x ∈ Connection.enabled_domains self' /\ x ∉ Connection.enabled_domains self)
    /\ Connection.count self' = Connection.count self + Z.of_nat (length new)
    /\ Connection.sent_ids self'
       = Connection.sent_ids self ++ seqZ (Connection.count self) (Z.of_nat (length new)).
Proof.
  intros Hpass Heff Hlog. unfold Connection._register_handlers in Hpass.
  set (h := Connection.handlers self) in *.
  destruct (Connection.register_loop env (map fst h) (Connection.enabled_domains self)
              (Connection.set_handlers self (Connection.prune (map fst h) h)))
    as [[self2 temp'] o] eqn:E.
  destruct o as [[]| |]; [|done|done]. injection Hpass as <- _. simpl in Heff.
  destruct (register_loop_new _ _ _ _ _ _ _ added E Heff Hlog)
    as (new & HE & Hcount & Hsent & Hnew & Hnd).
  exists new. split; [done|]. split; [intros x Hx; by apply Hnew|].
  split; [|done]. intros x. simpl in *.
  pose proof (register_loop_spec _ _ _ _ _ _ _ E x) as (I1 & _).
  rewrite (occurrences_elem_of x (foldl _ _ _)), occurrences_remove_all.
  rewrite HE, occurrences_app. split.
  - intros Hx. destruct (Hnew x Hx) as [Hnin _]. split; [|done].
    apply occurrences_not_elem_of in Hnin. apply occurrences_elem_of in Hx. simpl in *. lia.
  - intros [Hpos Hnin]. apply occurrences_elem_of.
    apply occurrences_not_elem_of in Hnin. simpl in *. lia.
Qed.

Lemma register_handlers_one_enable_each_witness :
  exists new,
    NoDup new
    /\ (forall x, x ∈ new -> exists d : Domain, x = Some d)
    /\ (forall x, x ∈ new
          <-> x ∈ Connection.enabled_domains
                    (Connection._register_handlers benign_env two_domains).1
              /\ x ∉ Connection.enabled_domains two_domains)
    /\ Connection.count (Connection._register_handlers benign_env two_domains).1
       = Connection.count two_domains + Z.of_nat (length new)
    /\ Connection.sent_ids (Connection._register_handlers benign_env two_domains).1
       = Connection.sent_ids two_domains
         ++ seqZ (Connection.count two_domains) (Z.of_nat (length new)).
Proof.
  apply (register_handlers_one_enable_each benign_env two_domains
           (Connection._register_handlers benign_env two_domains).1 tt
           (Connection.effects (Connection._register_handlers benign_env two_domains).1)).
  - vm_compute. reflexivity.
  - vm_compute. reflexivity.
  - set (l := Connection.effects (Connection._register_handlers benign_env two_domains).1).
    vm_compute in l. subst l. intros H.
    repeat (apply elem_of_cons in H as [H|H]; [discriminate H|]).
    by apply elem_of_nil in H.
Defined.

(** X13.  A second pass right after a pass that completed with no enable
    command having failed changes nothing: it completes, writes no frame,
    logs nothing, leaves the registry as it is and keeps the same namespaces
    subscribed. *)
Theorem register_handlers_twice (env : Env) (self self1 : Connection.t)
    (u : unit) (added : list Effect) :
  Connection._register_handlers env self = (self1, Returned u) ->
  Connection.effects self1 = Connection.effects self ++ added ->
  Log DEBUG EnableFailed ∉ added ->
  let self2 := (Connection._register_handlers env self1).1 in
  (Connection._register_handlers env self1).2 = Returned tt
  /\ Connection.effects self2 = Connection.effects self1
  /\ Connection.sent_ids self2 = Connection.sent_ids self1
  /\ Connection.handlers self2 = Connection.handlers self1
  /\ forall x : option Domain,
       x ∈ Connection.enabled_domains self2 <-> x ∈ Connection.enabled_domains self1.
Proof.
  intros Hpass Heff Hlog.
  pose proof (register_handlers_member env self self1 u added Hpass Heff Hlog) as Hm1.
  pose proof (register_handlers_handlers env self) as Hh1.
  rewrite Hpass in Hh1. simpl in Hh1.
  set (h := Connection.handlers self) in *.
  set (h1 := Connection.handlers self1) in *.
  assert (Connection.prune (map fst h1) h1 = h1) as Hid.
  { apply prune_id. intros k Hk.
    destruct (handlers_get k h1) as [[|f l]|] eqn:E.
    - rewrite Hh1 in E. by apply prune_no_empty in E.
    - eauto.
    - by apply handlers_get_None in E. }
  assert (forall x, serves env h1 (map fst h1) x <-> serves env h1 (map fst h) x) as Hkeys.
  { intros x. split; intros (k & Hk & Hc & Hd); exists k.
    - split; [|done]. apply handlers_contains_key.
      apply (prune_contains (map fst h) h). by rewrite <- Hh1.
    - split; [|done]. by apply handlers_contains_key. }
  destruct (register_loop_quiet env (map fst h1)
              (Connection.set_handlers self1 (Connection.prune (map fst h1) h1)))
    with (temp := Connection.enabled_domains self1) as [temp' Hloop].
  { intros k Hk Hc. simpl in *. rewrite Hid in Hc.
    destruct (always_on (domain_of env k)) eqn:Hao; [by right|left].
    apply Hm1. split; [|by left]. apply Hkeys. by exists k. }
  assert (Connection._register_handlers env self1
          = (Connection.set_enabled_domains
               (Connection.set_handlers self1 (Connection.prune (map fst h1) h1))
               (foldl (fun l ed => Connection.remove_or_pass ed l)
                  (Connection.enabled_domains self1) temp'), Returned tt)) as Hpass2.
  { unfold Connection._register_handlers. fold h1. by rewrite Hloop. }
  intros self2. subst self2. rewrite Hpass2. cbn [fst snd].
  split; [done|]. split; [done|]. split; [done|]. split; [done|].
  intros x.
  rewrite (register_handlers_member env self1 _ tt [] Hpass2);
    [|simpl; by rewrite app_nil_r|apply not_elem_of_nil].
  simpl. fold h1. rewrite Hid, Hkeys. rewrite (Hm1 x). tauto.
Qed.

Lemma register_handlers_twice_witness :
  let self1 := (Connection._register_handlers benign_env two_domains).1 in
  let self2 := (Connection._register_handlers benign_env self1).1 in
  (Connection._register_handlers benign_env self1).2 = Returned tt
  /\ Connection.effects self2 = Connection.effects self1
  /\ Connection.sent_ids self2 = Connection.sent_ids self1
  /\ Connection.handlers self2 = Connection.handlers self1
  /\ forall x : option Domain,
       x ∈ Connection.enabled_domains self2 <-> x ∈ Connection.enabled_domains self1.
Proof.
  apply (register_handlers_twice benign_env two_domains
           (Connection._register_handlers benign_env two_domains).1 tt
           (Connection.effects (Connection._register_handlers benign_env two_domains).1)).
  - vm_compute. reflexivity.
  - vm_compute. reflexivity.
  - set (l := Connection.effects (Connection._register_handlers benign_env two_domains).1).
    vm_compute in l. subst l. intros H.
    repeat (apply elem_of_cons in H as [H|H]; [discriminate H|]).
    by apply elem_of_nil in H.
Defined.

(** * Further properties of the listener *)




(** X17.  When the call of the transaction raises (a result that is missing
    or that the codec rejects), the exception leaves the listener: the loop
    is over, the frames that follow are never handled, and the transaction
    has been taken out of the pending table without being settled. *)
Theorem listener_dies_on_malformed_reply (env : Env) (self : Connection.t)
    (message : Message) (i : Z) (tx : Transaction.t) (e : Exc)
    (inputs : list Connection.Recv) :
  msg_id message = Some i ->
  Connection.mapper self !! i = Some tx ->
  (Transaction.__call__ tx message).2 = Some e ->
  Connection._listener env (Connection.Frame message :: inputs) self
  = (Connection.set_mapper self (delete i (Connection.mapper self)), Connection.Died e).
Proof.
  intros Hid Hget Hcall. cbn [Connection._listener].
  unfold Connection.on_message, Connection.on_reply. rewrite Hid, Hget.
  destruct (Transaction.__call__ tx message) as [tx' r]. simpl in Hcall. by subst r.
Qed.

Lemma listener_dies_on_malformed_reply_witness :
  Connection._listener benign_env
    (Connection.Frame (result_reply PNone) :: [Connection.Frame request_event_frame])
    in_flight
  = (Connection.set_mapper in_flight (delete 1 (Connection.mapper in_flight)),
     Connection.Died (KeyError (Transaction.key_error_text "('value',)" PNone))).
Proof.
  apply (listener_dies_on_malformed_reply benign_env in_flight (result_reply PNone) 1
           pending_tx); reflexivity.
Defined.

(** X18.  For a pending transaction and a reply without an error,
    [__call__] raises exactly when the reply has no result or the codec
    raises on the raw result; whenever it raises, the transaction is still
    pending. *)
Theorem transaction_call_raises (tx : Transaction.t) (response : Message) :
  Transaction.done tx = false ->
  msg_error response = None ->
  ((Transaction.__call__ tx response).2 <> None
   <-> msg_result response = None
       \/ exists raw e, msg_result response = Some raw
                        /\ (gen_send (Transaction.cdp_obj tx) raw).2 = Raised e)
  /\ ((Transaction.__call__ tx response).2 <> None ->
      Transaction.future (Transaction.__call__ tx response).1 = Pending).
Proof.
  intros Hdone Herr. unfold Transaction.__call__. rewrite Hdone, Herr.
  assert (Transaction.future tx = Pending) as Hp.
  { unfold Transaction.done in Hdone. by destruct (Transaction.future tx). }
  destruct (msg_result response) as [raw|]; simpl.
  - destruct (gen_send (Transaction.cdp_obj tx) raw) as [g r] eqn:E.
    destruct r as [y|value|e]; simpl.
    + split; [|done]. split; [done|]. intros [?|(raw' & e & [= <-] & Hr)]; [done|].
      rewrite E in Hr. done.
    + split; [|done]. split; [done|]. intros [?|(raw' & e & [= <-] & Hr)]; [done|].
      rewrite E in Hr. done.
    + destruct e; simpl; (split; [|done]); (split; [|done]); intros _; right;
        exists raw; eexists; rewrite E; done.
  - split; [|done]. split; [by left|done].
Qed.

Lemma transaction_call_raises_witness :
  ((Transaction.__call__ pending_tx (result_reply PNone)).2 <> None
   <-> msg_result (result_reply PNone) = None
       \/ exists raw e, msg_result (result_reply PNone) = Some raw
                        /\ (gen_send (Transaction.cdp_obj pending_tx) raw).2 = Raised e)
  /\ ((Transaction.__call__ pending_tx (result_reply PNone)).2 <> None ->
      Transaction.future (Transaction.__call__ pending_tx (result_reply PNone)).1 = Pending).
Proof.
  apply (transaction_call_raises pending_tx (result_reply PNone)); reflexivity.
Defined.

(** X19.  An exception of a callback that is not an instance of [Exception]
    (a [KeyboardInterrupt], a [SystemExit]) is not caught: it leaves the
    listener, the callbacks registered after the one that raised are not
    called, and nothing is logged. *)
Theorem callback_signal_escapes (env : Env) (self : Connection.t) (message : Message)
    (event : Event) (callback : Callback) (rest : list Callback) (e : Exc)
    (inputs : list Connection.Recv) :
  msg_id message = None ->
  parse_json_event env message = Some event ->
  handlers_get (event_type event) (Connection.handlers self) = Some (callback :: rest) ->
  raised_by env callback event = Some e ->
  is_Exception e = false ->
  Connection._listener env (Connection.Frame message :: inputs) self
    = ((Connection.call_callback env self callback event).1, Connection.Died e).
Proof.
  intros Hid Hparse Hget Hraise Hsig. cbn [Connection._listener].
  unfold Connection.on_message, handlers_contains. rewrite Hid, Hparse, Hget. simpl.
  destruct (call_callback_spec env self callback event) as (_ & _ & _ & _ & _ & _ & _ & Hr).
  destruct (Connection.call_callback env self callback event) as [self1 r].
  simpl in Hr. subst r. rewrite Hraise, Hsig. done.
Qed.

Lemma callback_signal_escapes_witness :
  Connection._listener signal_env
    (Connection.Frame request_event_frame :: [Connection.Frame stale_reply]) interrupted
  = ((Connection.call_callback signal_env interrupted "on_interrupt"
        {| event_type := RequestWillBeSent; event_value := PNone |}).1,
     Connection.Died (SystemSignal "KeyboardInterrupt")).
Proof.
  apply (callback_signal_escapes signal_env interrupted request_event_frame
           {| event_type := RequestWillBeSent; event_value := PNone |}
           "on_interrupt" ["on_request"]); reflexivity.
Defined.

(** The same run, spelled out: [on_request] is never called. *)
Example interrupt_stops_dispatch :
  Connection.effects
    (Connection._listener signal_env
       (Connection.Frame request_event_frame :: [Connection.Frame stale_reply])
       interrupted).1
  = [Call "on_interrupt" true {| event_type := RequestWillBeSent; event_value := PNone |}].
Proof. reflexivity. Qed.

(** X20.  A synchronous callback whose two-argument call raises a
    [TypeError], be it for the extra argument or from its own body, is called
    a second time with the event alone; when that call returns, nothing is
    logged and dispatch goes on with the callbacks that follow. *)
Theorem callback_one_argument_fallback (env : Env) (self : Connection.t) (event : Event)
    (callback : Callback) (rest : list Callback) (e : Exc) :
  callback_kind env callback = SyncFunction ->
  callback_call env callback true event = Some e ->
  is_TypeError e = true ->
  callback_call env callback false event = None ->
  Connection.dispatch env self event (callback :: rest)
  = Connection.dispatch env
      (Connection.emit (Connection.emit self (Call callback true event))
         (Call callback false event))
      event rest.
Proof.
  intros Hkind Htwo Htype Hone. cbn [Connection.dispatch].
  unfold Connection.call_callback. by rewrite Hkind, Htwo, Htype, Hone.
Qed.

Lemma callback_one_argument_fallback_witness :
  Connection.dispatch signal_env one_argument
    {| event_type := RequestWillBeSent; event_value := PNone |}
    ("on_event_only" :: ["on_request"])
  = Connection.dispatch signal_env
      (Connection.emit
         (Connection.emit one_argument
            (Call "on_event_only" true {| event_type := RequestWillBeSent; event_value := PNone |}))
         (Call "on_event_only" false {| event_type := RequestWillBeSent; event_value := PNone |}))
      {| event_type := RequestWillBeSent; event_value := PNone |} ["on_request"].
Proof.
  apply (callback_one_argument_fallback signal_env one_argument
           {| event_type := RequestWillBeSent; event_value := PNone |}
           "on_event_only" ["on_request"]
           (TypeError "takes 1 positional argument but 2 were given"));
    reflexivity.
Defined.
